(** * Mida: fixed-scale decimals and the event emitter

    A shallow embedding of [src/core/decimals/MidaDecimal.ts] and of the
    emitter exercised by [tests/utilities/emitter/MidaEmitter.spec.ts].

    The decimal class is written in TypeScript on top of a handful of
    JavaScript primitives ([String.prototype.split], [padEnd], [slice],
    [replace], [Number], [BigInt], bigint [/] and [%]).  Module [JS] models
    those primitives, module [MidaDecimal] transcribes the class method by
    method, and the lemmas that follow are stated on that transcription. *)

From Stdlib Require Import ZArith List Ascii String Bool Lia.
From stdpp Require Import gmap strings list.

Local Open Scope Z_scope.

(* ================================================================== *)
(** * JavaScript primitives *)
(* ================================================================== *)

Module JS.

(** A JavaScript string is a sequence of code units.  Only the code units
    0..255 are represented; every string the decimal class builds itself is
    made of ASCII digits, ["-"] and ["."]. *)
Definition jsstring : Type := list ascii.

Definition str (s : string) : jsstring := list_ascii_of_string s.

(** ** Completions: a value, or a thrown exception *)

Inductive error : Type :=
| Error         (* [throw new Error()] *)
| SyntaxError   (* [BigInt(s)] on a string that is no integer literal *)
| RangeError.   (* bigint division by [0n] *)

Inductive completion (A : Type) : Type :=
| Normal (a : A)
| Throw (e : error).
Arguments Normal {A} a.
Arguments Throw {A} e.

Definition bind {A B : Type} (k : A -> completion B) (c : completion A)
  : completion B :=
  match c with
  | Normal a => k a
  | Throw e => Throw e
  end.

(** [x ← c; k] runs [c] and, unless it throws, continues with [k]. *)
#[export] Instance completion_bind : MBind completion := @bind.
#[export] Instance completion_ret : MRet completion := @Normal.

(** ** Characters *)

Definition code (c : ascii) : Z := Z.of_N (N_of_ascii c).

Definition is_char (a c : ascii) : bool := Ascii.eqb a c.

(** DecimalDigit *)
Definition is_digit (c : ascii) : bool := (48 <=? code c) && (code c <=? 57).

(** The value of a digit in a radix up to 36: [0-9], [a-z], [A-Z]. *)
Definition digit_value (c : ascii) : option Z :=
  let k := code c in
  if (48 <=? k) && (k <=? 57) then Some (k - 48)
  else if (97 <=? k) && (k <=? 122) then Some (k - 87)
  else if (65 <=? k) && (k <=? 90) then Some (k - 55)
  else None.

Definition is_radix_digit (radix : Z) (c : ascii) : bool :=
  match digit_value c with
  | Some d => d <? radix
  | None => false
  end.

(** WhiteSpace and LineTerminator code units below 256:
    TAB, LF, VT, FF, CR, SP and NBSP. *)
Definition is_whitespace (c : ascii) : bool :=
  let k := code c in
  ((9 <=? k) && (k <=? 13)) || (k =? 32) || (k =? 160).

(** ** String methods *)

(** [s.indexOf(c) !== -1] *)
Definition contains (c : ascii) (s : jsstring) : bool := existsb (is_char c) s.

(** [s.replace(c, by)] with a one-character string pattern: only the first
    occurrence is replaced. *)
Fixpoint replace_first (c : ascii) (by_ : jsstring) (s : jsstring) : jsstring :=
  match s with
  | [] => []
  | a :: r => if is_char c a then by_ ++ r else a :: replace_first c by_ r
  end.

(** [s.split(sep)] with a one-character separator; the result is never
    empty. *)
Fixpoint split (sep : ascii) (s : jsstring) : list jsstring :=
  match s with
  | [] => [[]]
  | a :: r =>
      if is_char sep a then [] :: split sep r
      else match split sep r with
           | h :: t => (a :: h) :: t
           | [] => [[a]]
           end
  end.

(** [s.padEnd(n, "0")] and [s.padStart(n, "0")] *)
Definition padEnd (n : nat) (fill : ascii) (s : jsstring) : jsstring :=
  s ++ repeat fill (n - length s).

Definition padStart (n : nat) (fill : ascii) (s : jsstring) : jsstring :=
  repeat fill (n - length s) ++ s.

(** [s.slice(0, n)], [s.slice(0, -n)] and [s.slice(-n)] *)
Definition slice_to (n : nat) (s : jsstring) : jsstring := firstn n s.

Definition slice_to_neg (n : nat) (s : jsstring) : jsstring :=
  firstn (length s - n) s.

Definition slice_from_neg (n : nat) (s : jsstring) : jsstring :=
  skipn (length s - n) s.

(** [s[i]]: [None] is [undefined]. *)
Definition char_at (i : nat) (s : jsstring) : option ascii := nth_error s i.

Definition all_zeros (s : jsstring) : bool := forallb (is_char "0") s.

Definition nonempty (s : jsstring) : bool :=
  match s with [] => false | _ :: _ => true end.

(** [s.replace(/\.?0+$/, "")]: the leftmost position from which an optional
    dot followed by one or more zeros reaches the end of the string is cut
    off. *)
Fixpoint replace_dot_zeros_end (s : jsstring) : jsstring :=
  match s with
  | [] => []
  | a :: r =>
      if (is_char "." a && nonempty r && all_zeros r)
         || (is_char "0" a && all_zeros r)
      then []
      else a :: replace_dot_zeros_end r
  end.

(** [s.replace(/\.$/, "")] *)
Fixpoint replace_dot_end (s : jsstring) : jsstring :=
  match s with
  | [] => []
  | a :: r =>
      if is_char "." a && negb (nonempty r) then []
      else a :: replace_dot_end r
  end.

(** [String.prototype.trim] as applied by [Number] and [BigInt]. *)
Fixpoint trim_start (s : jsstring) : jsstring :=
  match s with
  | [] => []
  | a :: r => if is_whitespace a then trim_start r else s
  end.

Fixpoint trim_end (s : jsstring) : jsstring :=
  match s with
  | [] => []
  | a :: r =>
      match trim_end r with
      | [] => if is_whitespace a then [] else [a]
      | r' => a :: r'
      end
  end.

Definition trim (s : jsstring) : jsstring := trim_end (trim_start s).

(** The longest prefix of characters satisfying [p], and the rest. *)
Fixpoint span (p : ascii -> bool) (s : jsstring) : jsstring * jsstring :=
  match s with
  | [] => ([], [])
  | a :: r =>
      if p a then let '(h, t) := span p r in (a :: h, t)
      else ([], s)
  end.

(** ** Numerals *)

(** The mathematical value of a digit string in a radix. *)
Definition digits_value (radix : Z) (s : jsstring) : Z :=
  fold_left (fun acc c => acc * radix + default 0 (digit_value c)) s 0.

Definition decimal_value (s : jsstring) : Z := digits_value 10 s.

Definition all_digits (s : jsstring) : bool := forallb is_digit s.

(** NonDecimalIntegerLiteral: [0x], [0o] and [0b] literals (either case of
    the prefix letter), with at least one digit. *)
Definition NonDecimalIntegerLiteral (s : jsstring) : option Z :=
  match s with
  | z :: p :: ds =>
      let radix :=
        if is_char "x" p || is_char "X" p then Some 16
        else if is_char "o" p || is_char "O" p then Some 8
        else if is_char "b" p || is_char "B" p then Some 2
        else None in
      match radix with
      | Some r =>
          if is_char "0" z && nonempty ds && forallb (is_radix_digit r) ds
          then Some (digits_value r ds)
          else None
      | None => None
      end
  | _ => None
  end.

(** An optional sign: [(negative, rest)]. *)
Definition optional_sign (s : jsstring) : bool * jsstring :=
  match s with
  | a :: r =>
      if is_char "-" a then (true, r)
      else if is_char "+" a then (false, r)
      else (false, s)
  | [] => (false, [])
  end.

(** ** [BigInt(string)]: StringToBigInt

    [None] is the syntax error.  The empty (or all-blank) string is [0n]; a
    sign is only accepted in front of decimal digits. *)
Definition StringToBigInt (s : jsstring) : option Z :=
  let t := trim s in
  match t with
  | [] => Some 0
  | _ =>
      match NonDecimalIntegerLiteral t with
      | Some n => Some n
      | None =>
          let '(negative, ds) := optional_sign t in
          if nonempty ds && all_digits ds
          then Some (if negative then - decimal_value ds else decimal_value ds)
          else None
      end
  end.

Definition BigInt_of_string (s : jsstring) : completion Z :=
  match StringToBigInt s with
  | Some z => Normal z
  | None => Throw SyntaxError
  end.

(** [BigInt(boolean)] *)
Definition BigInt_of_bool (b : bool) : Z := if b then 1 else 0.

(** Bigint [/] truncates towards zero and throws on a zero divisor; bigint
    [%] takes the sign of the dividend. *)
Definition BigInt_div (a b : Z) : completion Z :=
  if b =? 0 then Throw RangeError else Normal (Z.quot a b).

Definition BigInt_rem (a b : Z) : completion Z :=
  if b =? 0 then Throw RangeError else Normal (Z.rem a b).

(** ** [Number(string)]: StringToNumber

    A finite Number is represented by the exact value
    [mantissa * 10 ^ exponent] of the literal it was read from, before
    rounding to a double.  The source applies two tests to such a number,
    [Number.isFinite] and [>= 5]; both are defined below so as to agree with
    rounding to the nearest double, ties to even. *)
Inductive number : Type :=
| NaN
| Infinity (negative : bool)
| Finite (negative : bool) (mantissa exponent : Z).

(** A literal rounds to an infinity exactly when its magnitude reaches the
    midpoint between the largest double and [2 ^ 1024]. *)
Definition double_overflow : Z := 2 ^ 1024 - 2 ^ 970.

Definition overflows (mantissa exponent : Z) : bool :=
  if 0 <=? exponent
  then double_overflow <=? mantissa * 10 ^ exponent
  else double_overflow * 10 ^ (- exponent) <=? mantissa.

Definition round_literal (negative : bool) (mantissa exponent : Z) : number :=
  if overflows mantissa exponent then Infinity negative
  else Finite negative mantissa exponent.

(** ExponentPart, up to the end of the string; the empty rest is exponent 0. *)
Definition ExponentPart (s : jsstring) : option Z :=
  match s with
  | [] => Some 0
  | a :: r =>
      if is_char "e" a || is_char "E" a then
        let '(negative, ds) := optional_sign r in
        if nonempty ds && all_digits ds
        then Some (if negative then - decimal_value ds else decimal_value ds)
        else None
      else None
  end.

(** StrUnsignedDecimalLiteral *)
Definition StrUnsignedDecimalLiteral (negative : bool) (s : jsstring) : number :=
  if bool_decide (s = str "Infinity") then Infinity negative
  else
    let '(int_digits, r1) := span is_digit s in
    let '(frac_digits, r2) :=
      match r1 with
      | a :: r => if is_char "." a then span is_digit r else ([], r1)
      | [] => ([], [])
      end in
    if nonempty int_digits || nonempty frac_digits then
      match ExponentPart r2 with
      | Some e =>
          round_literal negative (decimal_value (int_digits ++ frac_digits))
                        (e - Z.of_nat (length frac_digits))
      | None => NaN
      end
    else NaN.

Definition StringToNumber (s : jsstring) : number :=
  let t := trim s in
  match t with
  | [] => Finite false 0 0
  | _ =>
      match NonDecimalIntegerLiteral t with
      | Some n => round_literal false n 0
      | None =>
          let '(negative, r) := optional_sign t in
          StrUnsignedDecimalLiteral negative r
      end
  end.

(** [Number(x)] where [x] is a string or [undefined]. *)
Definition Number_ (x : option jsstring) : number :=
  match x with
  | Some s => StringToNumber s
  | None => NaN
  end.

Definition Number_isFinite (n : number) : bool :=
  match n with
  | Finite _ _ _ => true
  | _ => false
  end.

(** [n >= 5].  The doubles next to 5 are [5 - 2 ^ -50] and 5 itself, whose
    significand is even, so a literal rounds to at least 5 exactly when its
    value is at least [5 - 2 ^ -51]. *)
Definition Number_ge_5 (n : number) : bool :=
  match n with
  | NaN => false
  | Infinity negative => negb negative
  | Finite negative m e =>
      negb negative &&
      (if 0 <=? e
       then 5 * 2 ^ 51 - 1 <=? m * 10 ^ e * 2 ^ 51
       else (5 * 2 ^ 51 - 1) * 10 ^ (- e) <=? m * 2 ^ 51)
  end.

(** ** [bigint.toString()] *)

Definition digit_char (d : Z) : ascii := ascii_of_N (Z.to_N (48 + d)).

Fixpoint digits_of (fuel : nat) (n : Z) (acc : jsstring) : jsstring :=
  let acc' := digit_char (n mod 10) :: acc in
  match fuel with
  | O => acc'
  | S fuel' => if n <? 10 then acc' else digits_of fuel' (n / 10) acc'
  end.

Definition BigInt_toString (z : Z) : jsstring :=
  let m := Z.abs z in
  let ds := digits_of (Z.to_nat (Z.log2 m)) m [] in
  if z <? 0 then "-"%char :: ds else ds.

End JS.

(* ================================================================== *)
(** * The MidaDecimal class *)
(* ================================================================== *)

Module MidaDecimal.
Import JS.

(** [readonly #value: bigint] *)
Record t : Type := mk { value : Z }.

(** [static readonly #decimals = 32] and [static readonly #rounded = true] *)
Definition decimals : nat := 32.
Definition rounded : bool := true.

(** [static readonly #shift = BigInt(`1${"0".repeat(MidaDecimal.#decimals)}`)] *)
Definition shift : Z :=
  default 0 (StringToBigInt ("1"%char :: repeat "0"%char decimals)).

(** [static #toString (value: bigint): string] *)
Definition toString_value (value : Z) : jsstring :=
  let descriptor := padStart (decimals + 1) "0" (BigInt_toString value) in
  let integers := slice_to_neg decimals descriptor in
  let decimals_ := replace_dot_zeros_end (slice_from_neg decimals descriptor) in
  let isNegative := false in
  let '(isNegative, decimals_) :=
    if contains "-" decimals_
    then (true, replace_first "-" (str "0") decimals_)
    else (isNegative, decimals_) in
  let '(isNegative, integers) :=
    if contains "-" integers
    then (true, replace_first "-" [] integers)
    else (isNegative, integers) in
  (if isNegative then str "-" else []) ++
  replace_dot_end (integers ++ str "." ++ decimals_).

(** [public toString (): string] *)
Definition toString (this : t) : jsstring := toString_value (value this).

(** The two textual parts the constructor works on, after the sign has been
    taken out of them: [(isNegative, integers, decimals)]. *)
Definition constructor_parts (value : jsstring) : bool * jsstring * jsstring :=
  let parts := split "." value ++ [[]] in
  let integers := nth 0 parts [] in
  let decimals_ := nth 1 parts [] in
  let isNegative := false in
  let '(isNegative, decimals_) :=
    if contains "-" decimals_
    then (true, replace_first "-" (str "0") decimals_)
    else (isNegative, decimals_) in
  let '(isNegative, integers) :=
    if contains "-" integers
    then (true, replace_first "-" [] integers)
    else (isNegative, integers) in
  (isNegative, integers, decimals_).

(** [public constructor (value: MidaDecimalConvertible = 0)], on the string
    [String(value)].  The call of the logger before [throw new Error()] has
    no effect on the decimal and is left out. *)
Definition new (value : jsstring) : completion t :=
  let '(isNegative, integers, decimals_) := constructor_parts value in
  if negb (Number_isFinite (Number_ (Some integers)))
     || negb (Number_isFinite (Number_ (Some decimals_)))
  then Throw Error
  else
    truncated ← BigInt_of_string
      ((if isNegative then str "-" else []) ++ integers ++
       slice_to decimals (padEnd decimals "0" decimals_));
    Normal (mk (truncated +
                BigInt_of_bool
                  (rounded &&
                   Number_ge_5
                     (Number_ (option_map (fun c => [c])
                                          (char_at decimals decimals_)))))).

(** Modelled from the spec: the declaration of [MidaDecimalConvertible]
    ([#decimals/MidaDecimalConvertible]) is not among the sources; the spec
    lists integer, floating number, string and Decimal as construction
    sources.  The constructor only ever looks at [String(value)], so a
    number is represented by that string ([String(0)] is ["0"],
    [String(-1)] is ["-1"]). *)
Inductive MidaDecimalConvertible : Type :=
| OfString (s : jsstring)
| OfDecimal (d : t).

(** [String(value)]: a decimal is converted by its own [toString]. *)
Definition String_ (value : MidaDecimalConvertible) : jsstring :=
  match value with
  | OfString s => s
  | OfDecimal d => toString d
  end.

(** [export const decimal = (value = 0) => new MidaDecimal(value)] *)
Definition decimal (value : MidaDecimalConvertible) : completion t :=
  new (String_ value).

Definition number_0 : MidaDecimalConvertible := OfString (str "0").
Definition number_minus_1 : MidaDecimalConvertible := OfString (str "-1").

(** [static #divideRound (dividend: bigint, divisor: bigint)]: the bigint
    expression, then the decimal built from its string. *)
Definition divideRound_value (dividend divisor : Z) : completion Z :=
  quotient ← BigInt_div dividend divisor;
  correction ←
    (if rounded
     then doubled ← BigInt_div (dividend * 2) divisor; BigInt_rem doubled 2
     else Normal 0);
  Normal (quotient + correction).

Definition divideRound (dividend divisor : Z) : completion t :=
  v ← divideRound_value dividend divisor;
  decimal (OfString (toString_value v)).

Definition add (this : t) (operand : MidaDecimalConvertible) : completion t :=
  o ← decimal operand;
  decimal (OfString (toString_value (value this + value o))).

Definition subtract (this : t) (operand : MidaDecimalConvertible) : completion t :=
  o ← decimal operand;
  decimal (OfString (toString_value (value this - value o))).

Definition multiply (this : t) (operand : MidaDecimalConvertible) : completion t :=
  o ← decimal operand;
  divideRound (value this * value o) shift.

Definition divide (this : t) (operand : MidaDecimalConvertible) : completion t :=
  o ← decimal operand;
  divideRound (value this * shift) (value o).

Definition equals (this : t) (operand : MidaDecimalConvertible) : completion bool :=
  o ← decimal operand;
  Normal (value this =? value o).

Definition greaterThan (this : t) (operand : MidaDecimalConvertible) : completion bool :=
  o ← decimal operand;
  Normal (value this >? value o).

Definition greaterThanOrEqual (this : t) (operand : MidaDecimalConvertible)
  : completion bool :=
  g ← greaterThan this operand;
  if (g : bool) then Normal true else equals this operand.

Definition lessThan (this : t) (operand : MidaDecimalConvertible) : completion bool :=
  o ← decimal operand;
  Normal (value this <? value o).

Definition lessThanOrEqual (this : t) (operand : MidaDecimalConvertible)
  : completion bool :=
  l ← lessThan this operand;
  if (l : bool) then Normal true else equals this operand.

(** [public static abs (operand: MidaDecimal)] *)
Definition abs (operand : t) : completion t :=
  l ← lessThan operand number_0;
  if (l : bool) then multiply operand number_minus_1 else Normal operand.

(** The loop of [min] and [max]: index [i] runs from 1 to
    [operands.length - 1]; each round reads [operands[0]] and compares it
    with the running extreme. *)
Fixpoint extreme_loop (better : t -> MidaDecimalConvertible -> completion bool)
    (operands : list t) (first : t) (i rounds : nat) (extreme : t) : completion t :=
  match rounds with
  | O => Normal extreme
  | S rounds' =>
      let operand := nth 0 operands first in
      b ← better operand (OfDecimal extreme);
      extreme_loop better operands first (S i) rounds'
                   (if (b : bool) then operand else extreme)
  end.

(** [public static min (...operands: MidaDecimal[])]; [None] is the
    [undefined] returned for an empty argument list. *)
Definition min (operands : list t) : completion (option t) :=
  match operands with
  | [] => Normal None
  | first :: _ =>
      m ← extreme_loop lessThan operands first 1 (length operands - 1) first;
      Normal (Some m)
  end.

(** [public static max (...operands: MidaDecimal[])] *)
Definition max (operands : list t) : completion (option t) :=
  match operands with
  | [] => Normal None
  | first :: _ =>
      m ← extreme_loop greaterThan operands first 1 (length operands - 1) first;
      Normal (Some m)
  end.

End MidaDecimal.

(* ================================================================== *)
(** * The emitter *)
(* ================================================================== *)

Module MidaEmitter.

Section Emitter.
(** The payload carried by an event, and the callbacks subscribers pass
    in, are left abstract. *)
Context {payload listener : Type}.

(** Modelled from the spec: the event value object
    [{ type, timestamp, data }] of [#events/MidaEvent], which is not among
    the sources. *)
Record MidaEvent : Type :=
  { event_type : string; event_date : Z; event_data : option payload }.

(** Modelled from the spec: a registration [{ id, callback, oneShot }].
    The spec asks for ids that are fresh and unique for the lifetime of
    the emitter; they are drawn from a counter here. *)
Definition uuid : Type := nat.

Record registration : Type :=
  { reg_id : uuid; reg_callback : listener; reg_oneShot : bool }.

(** Modelled from the spec: the emitter class [#utilities/emitter/MidaEmitter]
    is not among the sources (its test file is).  Its state is the table
    [listenersByType], from event-type names to registrations in insertion
    order, together with the number of ids issued so far. *)
Record t : Type :=
  { listenersByType : gmap string (list registration); issued : nat }.

(** [new MidaEmitter()] *)
Definition empty : t := {| listenersByType := ∅; issued := 0 |}.

Definition bucket (type : string) (em : t) : list registration :=
  default [] (listenersByType em !! type).

Definition register (type : string) (cb : listener) (once : bool) (em : t)
  : uuid * t :=
  let fresh := issued em in
  let r := {| reg_id := fresh; reg_callback := cb; reg_oneShot := once |} in
  (fresh,
   {| listenersByType := <[type := bucket type em ++ [r]]> (listenersByType em);
      issued := S fresh |}).

(** Modelled from the spec: [addEventListener(type, callback) -> id]
    appends a persistent registration and returns its fresh id. *)
Definition addEventListener (type : string) (cb : listener) (em : t)
  : uuid * t :=
  register type cb false em.

(** Modelled from the spec: [on(type)] without a callback waits for the
    next event through a one-shot registration ([cb] stands for the
    resolver of the deferred value); [on(type, callback)] is
    [addEventListener]. *)
Definition on (type : string) (cb : listener) (persistent : bool) (em : t)
  : uuid * t :=
  register type cb (negb persistent) em.

(** Modelled from the spec: [removeEventListener(id)] removes the
    registration with that id from whichever bucket holds it, and does
    nothing for an unknown id. *)
Definition removeEventListener (i : uuid) (em : t) : t :=
  {| listenersByType := filter (λ r, reg_id r ≠ i) <$> listenersByType em;
     issued := issued em |}.

(** Modelled from the spec: [notifyListeners(type, data?)] builds the event
    and invokes every current registration for [type] in registration
    order; one-shot registrations are removed once invoked.  The calls made
    to the callbacks are the observable outcome: the result lists them, in
    order.  (A callback that calls back into the emitter during the
    dispatch is outside this model.) *)
Definition notifyListeners (type : string) (data : option payload) (now : Z)
    (em : t) : t * list (registration * MidaEvent) :=
  let event := {| event_type := type; event_date := now; event_data := data |} in
  ({| listenersByType :=
        alter (filter (λ r, reg_oneShot r = false)) type (listenersByType em);
      issued := issued em |},
   (λ r, (r, event)) <$> bucket type em).

(** How often a dispatch invoked the registration [i]. *)
Definition invocations (i : uuid) (calls : list (registration * MidaEvent)) : nat :=
  length (filter (λ c, reg_id (fst c) = i) calls).

(** The calls a client can make, and the emitter they leave behind. *)
Inductive call : Type :=
| AddEventListener (type : string) (cb : listener)
| On (type : string) (cb : listener) (persistent : bool)
| RemoveEventListener (i : uuid)
| NotifyListeners (type : string) (data : option payload) (now : Z).

Definition perform (c : call) (em : t) : t :=
  match c with
  | AddEventListener type cb => snd (addEventListener type cb em)
  | On type cb persistent => snd (on type cb persistent em)
  | RemoveEventListener i => removeEventListener i em
  | NotifyListeners type data now => fst (notifyListeners type data now em)
  end.

Definition perform_all (cs : list call) (em : t) : t :=
  fold_left (λ e c, perform c e) cs em.

Definition removes (i : uuid) (c : call) : bool :=
  match c with
  | RemoveEventListener j => bool_decide (j = i)
  | _ => false
  end.

End Emitter.

End MidaEmitter.

(* ================================================================== *)
(** * Vocabulary of the statements *)
(* ================================================================== *)

Section Vocabulary.
Import JS.

(** No character of [s] is blank. *)
Definition no_whitespace (s : jsstring) : bool :=
  forallb (fun c => negb (is_whitespace c)) s.

(** A decimal numeral: an optional minus sign, integer digits and, after a
    dot, fractional digits (no dot when there are none). *)
Definition numeral (negative : bool) (int_digits frac_digits : jsstring) : jsstring :=
  (if negative then str "-" else []) ++ int_digits ++
  (if nonempty frac_digits then "."%char :: frac_digits else []).

(** The fractional digits as the constructor keeps them: padded with zeros,
    or cut, to 32 digits. *)
Definition kept_fraction (frac_digits : jsstring) : jsstring :=
  firstn 32 (frac_digits ++ repeat "0"%char (32 - length frac_digits)).

(** 1 when the 33rd fractional digit exists and is 5 or more. *)
Definition excess_digit_ge_5 (frac_digits : jsstring) : bool :=
  match nth_error frac_digits 32 with
  | Some c => 5 <=? code c - 48
  | None => false
  end.

(** The scaled values whose integer part [Number] still reads as a finite
    double: the constructor accepts the [toString] output of exactly
    these. *)
Definition readable (v : Z) : Prop := Z.abs v < double_overflow * 10 ^ 32.

(** Every instance of the class is built by its constructor. *)
Definition constructed (d : MidaDecimal.t) : Prop :=
  exists s, MidaDecimal.new s = Normal d.

(** A decimal string: an optional minus sign, one or more digits and,
    optionally, a dot followed by one or more digits. *)
Definition valid_decimal_string (s : jsstring) : bool :=
  let r := match s with
           | a :: r' => if is_char "-" a then r' else s
           | [] => s
           end in
  let '(int_digits, rest) := span is_digit r in
  nonempty int_digits &&
  match rest with
  | [] => true
  | a :: frac_digits =>
      is_char "." a && nonempty frac_digits && all_digits frac_digits
  end.

(** The largest integer [Number] reads as finite, followed by a fraction
    that the constructor rounds up into the next integer. *)
Definition carry_input : jsstring :=
  BigInt_toString (double_overflow - 1)
  ++ str ".999999999999999999999999999999995".

(** [10 ^ 308], in full. *)
Definition ten_to_308 : jsstring := "1"%char :: repeat "0"%char 308.

End Vocabulary.

Section EmitterVocabulary.
Context {payload listener : Type}.
Import MidaEmitter.

(** How many registrations of a bucket carry the id [i]. *)
Definition occurrences (i : uuid) (l : list (@registration listener)) : nat :=
  length (filter (λ r, reg_id r = i) l).

(** Every id in the table was issued by this emitter. *)
Definition well_formed (em : @t listener) : Prop :=
  ∀ type r, r ∈ bucket type em → (reg_id r < issued em)%nat.

(** The id [i] is registered, once and persistently, for [type]. *)
Definition listening (i : uuid) (type : string) (em : @t listener) : Prop :=
  (i < issued em)%nat ∧
  occurrences i (bucket type em) = 1%nat ∧
  ∀ r, r ∈ bucket type em → reg_id r = i → reg_oneShot r = false.

(** The id [i] was issued and is in no bucket. *)
Definition absent (i : uuid) (em : @t listener) : Prop :=
  (i < issued em)%nat ∧ ∀ type, occurrences i (bucket type em) = 0%nat.

End EmitterVocabulary.

Section FurtherVocabulary.
Import JS.

(** [public [inspect.custom] (): string] *)
Definition inspect_custom (this : MidaDecimal.t) : jsstring :=
  MidaDecimal.toString this ++ str "d".

(** [readable], as a test. *)
Definition readableb (v : Z) : bool := Z.abs v <? double_overflow * 10 ^ 32.

(** What the constructor makes of the text [#toString] writes for [v]. *)
Definition reread (v : Z) : completion MidaDecimal.t :=
  if readableb v then Normal (MidaDecimal.mk v) else Throw Error.

(** The quotient of [n] by [d] rounded to the nearest integer, a half going
    away from zero. *)
Definition rounded_quotient (n d : Z) : Z :=
  if Z.abs d <=? 2 * Z.abs (Z.rem n d)
  then Z.quot n d + Z.sgn n * Z.sgn d
  else Z.quot n d.

(** The numbers 1 and 0 as operands ([String(1)] is ["1"]). *)
Definition number_1 : MidaDecimal.MidaDecimalConvertible :=
  MidaDecimal.OfString (str "1").

(** One or more hexadecimal digits. *)
Definition hex_digits (s : jsstring) : bool :=
  nonempty s && forallb (is_radix_digit 16) s.

End FurtherVocabulary.

Section RawTextVocabulary.
Import JS.





(** A valid decimal string with 400 fractional digits. *)
Definition long_fraction : jsstring := str "0." ++ repeat "3"%char 400.

(** Building a decimal again from the [toString] text of [d] gives [d],
    equal to it by [equals]. *)
Definition round_trip (d : MidaDecimal.t) : Prop :=
  MidaDecimal.new (MidaDecimal.toString d) = Normal d /\
  (again ← MidaDecimal.new (MidaDecimal.toString d);
   MidaDecimal.equals again (MidaDecimal.OfDecimal d)) = Normal true.

End RawTextVocabulary.

(* ================================================================== *)
(** * The rounding division *)
(* ================================================================== *)

Section DivideRound.
Import JS.

(** Doubling a non-negative dividend: the quotient doubles, plus one when
    the remainder is at least half the divisor. *)
Lemma div_double (a b : Z) :
  0 <= a -> 0 < b ->
  (a * 2) / b = 2 * (a / b) + (if b <=? 2 * (a mod b) then 1 else 0).
Proof.
  intros Ha Hb.
  pose proof (Z.div_mod a b ltac:(lia)) as Hdm.
  pose proof (Z.mod_pos_bound a b Hb) as Hm.
  destruct (Z.leb_spec b (2 * (a mod b))).
  - symmetry. apply (Z.div_unique _ _ _ (2 * (a mod b) - b)); lia.
  - symmetry. apply (Z.div_unique _ _ _ (2 * (a mod b))); lia.
Qed.

Lemma rem_2_double_plus (k d : Z) :
  0 <= k -> (d = 0 \/ d = 1) -> Z.rem (2 * k + d) 2 = d.
Proof.
  intros Hk Hd. rewrite Z.rem_mod_nonneg by lia.
  rewrite Z.add_comm, Z.mul_comm, Z.mod_add by lia.
  destruct Hd; subst; reflexivity.
Qed.

(** The correction term of [#divideRound], for a non-negative dividend and
    a positive divisor. *)
Lemma correction_nonneg (a b : Z) :
  0 <= a -> 0 < b ->
  Z.rem (Z.quot (a * 2) b) 2 = if b <=? 2 * Z.rem a b then 1 else 0.
Proof.
  intros Ha Hb.
  rewrite (Z.quot_div_nonneg (a * 2) b), (Z.rem_mod_nonneg a b) by lia.
  rewrite div_double by lia.
  apply rem_2_double_plus.
  - apply Z.div_pos; lia.
  - destruct (b <=? 2 * (a mod b)); auto.
Qed.

(** The same term for any signs: it is the sign of the exact quotient when
    the discarded fraction is one half or more, and 0 otherwise. *)
Lemma correction_signed (a b : Z) :
  b <> 0 ->
  Z.rem (Z.quot (a * 2) b) 2 =
  if Z.abs b <=? 2 * Z.abs (Z.rem a b) then Z.sgn a * Z.sgn b else 0.
Proof.
  intros Hb.
  destruct (Z.lt_trichotomy a 0) as [Ha | [Ha | Ha]];
  destruct (Z.lt_trichotomy b 0) as [Hb' | [Hb' | Hb']]; try lia.
  - (* a < 0, b < 0 *)
    replace a with (- (- a)) by lia. replace b with (- (- b)) at 1 3 by lia.
    rewrite Z.mul_opp_l, Z.quot_opp_opp, Z.rem_opp_opp by lia.
    rewrite correction_nonneg by lia.
    rewrite Z.abs_opp, (Z.abs_eq (Z.rem (- a) (- b))) by (apply Z.rem_nonneg; lia).
    rewrite (Z.abs_neq b) by lia.
    rewrite (Z.sgn_neg (- - a)), (Z.sgn_neg b) by lia. reflexivity.
  - (* a < 0, 0 < b *)
    replace a with (- (- a)) by lia.
    rewrite Z.mul_opp_l, Z.quot_opp_l, Z.rem_opp_l, Z.rem_opp_l by lia.
    rewrite correction_nonneg by lia.
    rewrite Z.abs_opp, (Z.abs_eq (Z.rem (- a) b)) by (apply Z.rem_nonneg; lia).
    rewrite (Z.abs_eq b) by lia.
    rewrite (Z.sgn_neg (- - a)), (Z.sgn_pos b) by lia.
    destruct (b <=? 2 * Z.rem (- a) b); reflexivity.
  - subst a. rewrite Z.mul_0_l, Z.quot_0_l, (Z.rem_0_l b) by lia.
    destruct (Z.leb_spec (Z.abs b) (2 * Z.abs 0)); [lia | reflexivity].
  - subst a. rewrite Z.mul_0_l, Z.quot_0_l, (Z.rem_0_l b) by lia.
    destruct (Z.leb_spec (Z.abs b) (2 * Z.abs 0)); [lia | reflexivity].
  - (* 0 < a, b < 0 *)
    replace b with (- (- b)) at 1 3 by lia.
    rewrite Z.quot_opp_r, Z.rem_opp_l, Z.rem_opp_r by lia.
    rewrite correction_nonneg by lia.
    rewrite (Z.abs_eq (Z.rem a (- b))) by (apply Z.rem_nonneg; lia).
    rewrite (Z.abs_neq b) by lia.
    rewrite (Z.sgn_pos a), (Z.sgn_neg b) by lia.
    destruct (- b <=? 2 * Z.rem a (- b)); reflexivity.
  - rewrite correction_nonneg by lia.
    rewrite (Z.abs_eq (Z.rem a b)) by (apply Z.rem_nonneg; lia).
    rewrite (Z.abs_eq b) by lia.
    rewrite (Z.sgn_pos a), (Z.sgn_pos b) by lia. reflexivity.
Qed.

(** The bigint expression itself, when the divisor is not zero. *)
Lemma divideRound_value_nonzero (dividend divisor : Z) :
  divisor <> 0 ->
  MidaDecimal.divideRound_value dividend divisor =
  Normal (Z.quot dividend divisor + Z.rem (Z.quot (dividend * 2) divisor) 2).
Proof.
  intros Hd. unfold MidaDecimal.divideRound_value, BigInt_div, BigInt_rem.
  destruct (Z.eqb_spec divisor 0) as [|_]; [contradiction | reflexivity].
Qed.

(** An exact division is left alone. *)
Lemma divideRound_value_exact (q divisor : Z) :
  divisor <> 0 ->
  MidaDecimal.divideRound_value (q * divisor) divisor = Normal q.
Proof.
  intros Hd. rewrite divideRound_value_nonzero, correction_signed by assumption.
  rewrite Z.rem_mul, Z.quot_mul by assumption.
  destruct (Z.leb_spec (Z.abs divisor) (2 * Z.abs 0)); [lia|].
  f_equal. lia.
Qed.

(** The result is a nearest integer to the exact quotient. *)
Lemma divideRound_value_nearest (dividend divisor : Z) :
  divisor <> 0 ->
  exists r, MidaDecimal.divideRound_value dividend divisor = Normal r /\
            2 * Z.abs (dividend - r * divisor) <= Z.abs divisor.
Proof.
  intros Hd. rewrite divideRound_value_nonzero, correction_signed by assumption.
  eexists. split; [reflexivity|].
  pose proof (Z.quot_rem' dividend divisor) as E.
  pose proof (Z.rem_bound_abs dividend divisor Hd) as B.
  pose proof (Z.rem_sign_nz dividend divisor Hd) as S.
  destruct (Z.leb_spec (Z.abs divisor) (2 * Z.abs (Z.rem dividend divisor))) as [H|H].
  - assert (Hr : Z.rem dividend divisor <> 0) by lia.
    specialize (S Hr).
    replace (dividend - (Z.quot dividend divisor + Z.sgn dividend * Z.sgn divisor) * divisor)
      with (Z.rem dividend divisor - Z.sgn dividend * (Z.sgn divisor * divisor)) by lia.
    rewrite <- Z.abs_sgn, <- S.
    destruct (Z.sgn_spec (Z.rem dividend divisor)) as [[? ->] | [[? ->] | [? ->]]]; lia.
  - replace (dividend - Z.quot dividend divisor * divisor)
      with (Z.rem dividend divisor) by lia. lia.
Qed.

End DivideRound.

(* ================================================================== *)
(** * Digit strings *)
(* ================================================================== *)

Section Digits.
Import JS.

Lemma is_digit_value (c : ascii) :
  is_digit c = true -> digit_value c = Some (code c - 48) /\ 0 <= code c - 48 <= 9.
Proof.
  unfold is_digit, digit_value. intros H. cbv zeta. rewrite H. split; [reflexivity|].
  apply andb_true_iff in H as [H1 H2]. lia.
Qed.

Lemma is_digit_not_whitespace (c : ascii) :
  is_digit c = true -> is_whitespace c = false.
Proof. unfold is_digit, is_whitespace. cbv zeta. lia. Qed.

Lemma is_digit_not_char (a c : ascii) :
  is_digit a = false -> is_digit c = true -> is_char a c = false.
Proof.
  unfold is_char. intros Ha Hc. destruct (Ascii.eqb_spec a c); [congruence | reflexivity].
Qed.

Lemma digits_value_acc (radix : Z) (s : jsstring) (acc : Z) :
  fold_left (fun acc c => acc * radix + default 0 (digit_value c)) s acc =
  acc * radix ^ Z.of_nat (length s) + digits_value radix s.
Proof.
  unfold digits_value. revert acc.
  induction s as [|c s IH]; intros acc; simpl.
  - lia.
  - rewrite IH, (IH (0 * radix + _)).
    rewrite Nat2Z.inj_succ, Z.pow_succ_r by lia. ring.
Qed.

Lemma digits_value_app (radix : Z) (a b : jsstring) :
  digits_value radix (a ++ b) =
  digits_value radix a * radix ^ Z.of_nat (length b) + digits_value radix b.
Proof.
  unfold digits_value at 1. rewrite fold_left_app. apply digits_value_acc.
Qed.

Lemma decimal_value_app (a b : jsstring) :
  decimal_value (a ++ b) =
  decimal_value a * 10 ^ Z.of_nat (length b) + decimal_value b.
Proof. apply digits_value_app. Qed.

Lemma decimal_value_cons (c : ascii) (s : jsstring) :
  decimal_value (c :: s) =
  default 0 (digit_value c) * 10 ^ Z.of_nat (length s) + decimal_value s.
Proof. apply (decimal_value_app [c] s). Qed.

Lemma digits_value_nonneg (radix : Z) (s : jsstring) :
  0 <= radix -> forallb (is_radix_digit radix) s = true ->
  0 <= digits_value radix s.
Proof.
  intros Hr. unfold digits_value.
  assert (G : forall acc, 0 <= acc -> forallb (is_radix_digit radix) s = true ->
            0 <= fold_left (fun acc c => acc * radix + default 0 (digit_value c)) s acc).
  { induction s as [|c s IH]; intros acc Hacc Hs; simpl in *; [assumption|].
    apply andb_true_iff in Hs as [Hc Hs]. apply IH; [|assumption].
    unfold is_radix_digit in Hc. unfold digit_value in *. cbv zeta in *.
    repeat match goal with
           | |- context [if ?b then _ else _] => destruct b eqn:?
           | H : context [if ?b then _ else _] |- _ => destruct b eqn:?
           end; simpl; try discriminate; nia. }
  apply G. lia.
Qed.

Lemma decimal_value_bounds (s : jsstring) :
  all_digits s = true -> 0 <= decimal_value s < 10 ^ Z.of_nat (length s).
Proof.
  induction s as [|c s IH]; intros Hs.
  - cbn. lia.
  - cbn in Hs. apply andb_true_iff in Hs as [Hc Hs].
    specialize (IH Hs). rewrite decimal_value_cons.
    destruct (is_digit_value c Hc) as [-> Hd]. cbn [default from_option id].
    cbn [length]. rewrite Nat2Z.inj_succ, Z.pow_succ_r by lia.
    assert (0 < 10 ^ Z.of_nat (length s)) by (apply Z.pow_pos_nonneg; lia).
    nia.
Qed.

Lemma all_digits_app (a b : jsstring) :
  all_digits (a ++ b) = all_digits a && all_digits b.
Proof. apply forallb_app. Qed.

Lemma all_digits_repeat_0 (n : nat) : all_digits (repeat "0"%char n) = true.
Proof. induction n; [reflexivity | assumption]. Qed.

Lemma all_zeros_all_digits (s : jsstring) :
  all_zeros s = true -> all_digits s = true.
Proof.
  induction s as [|c s IH]; [reflexivity|].
  unfold all_zeros, all_digits in *. cbn [forallb]. intros H.
  apply andb_true_iff in H as [Hc Hs]. apply andb_true_iff. split; [|exact (IH Hs)].
  unfold is_char in Hc. apply Ascii.eqb_eq in Hc. subst c. reflexivity.
Qed.

Lemma all_zeros_value (s : jsstring) :
  all_zeros s = true -> decimal_value s = 0.
Proof.
  induction s as [|c s IH]; [reflexivity|].
  unfold all_zeros in *. cbn [forallb]. intros H.
  apply andb_true_iff in H as [Hc Hs]. rewrite decimal_value_cons, (IH Hs).
  unfold is_char in Hc. apply Ascii.eqb_eq in Hc. subst c. reflexivity.
Qed.

Lemma all_zeros_repeat (n : nat) : all_zeros (repeat "0"%char n) = true.
Proof. induction n; [reflexivity | assumption]. Qed.

Lemma decimal_value_pad_left (n : nat) (s : jsstring) :
  decimal_value (repeat "0"%char n ++ s) = decimal_value s.
Proof.
  rewrite decimal_value_app, all_zeros_value by apply all_zeros_repeat. lia.
Qed.

Lemma decimal_value_pad_right (n : nat) (s : jsstring) :
  decimal_value (s ++ repeat "0"%char n) = decimal_value s * 10 ^ Z.of_nat n.
Proof.
  rewrite decimal_value_app, (all_zeros_value (repeat _ _)) by apply all_zeros_repeat.
  rewrite repeat_length. lia.
Qed.

(** ** [bigint.toString()] writes the decimal digits of the magnitude *)

Lemma digit_char_spec (d : Z) :
  0 <= d <= 9 ->
  is_digit (digit_char d) = true /\ digit_value (digit_char d) = Some d.
Proof.
  intros H.
  assert (d = 0 \/ d = 1 \/ d = 2 \/ d = 3 \/ d = 4 \/
          d = 5 \/ d = 6 \/ d = 7 \/ d = 8 \/ d = 9) as Hd by lia.
  repeat (destruct Hd as [-> | Hd]; [split; reflexivity|]).
  subst d. split; reflexivity.
Qed.

Lemma digits_of_spec (fuel : nat) :
  forall (n : Z) (acc : jsstring),
    0 <= n < 2 ^ (Z.of_nat fuel + 1) ->
    exists ds, digits_of fuel n acc = ds ++ acc /\
               all_digits ds = true /\ decimal_value ds = n /\ ds <> [].
Proof.
  induction fuel as [|fuel IH]; intros n acc Hn.
  - exists [digit_char (n mod 10)]. cbn [digits_of].
    change (2 ^ (Z.of_nat 0 + 1)) with 2 in Hn.
    rewrite Z.mod_small by lia.
    destruct (digit_char_spec n ltac:(lia)) as [Hd Hv].
    repeat split; [cbn; rewrite Hd; reflexivity | | discriminate].
    unfold decimal_value, digits_value. cbn. rewrite Hv. cbn. lia.
  - cbn [digits_of].
    pose proof (Z.mod_pos_bound n 10 ltac:(lia)) as Hm.
    destruct (digit_char_spec (n mod 10) ltac:(lia)) as [Hd Hv].
    destruct (Z.ltb_spec n 10) as [Hlt | Hge].
    + exists [digit_char (n mod 10)].
      repeat split; [cbn; rewrite Hd; reflexivity | | discriminate].
      unfold decimal_value, digits_value. cbn. rewrite Hv. cbn.
      rewrite Z.mod_small; lia.
    + destruct (IH (n / 10) (digit_char (n mod 10) :: acc)) as (ds & E & Hds & Hval & _).
      { split; [apply Z.div_pos; lia|].
        apply Z.div_lt_upper_bound; [lia|].
        rewrite Nat2Z.inj_succ in Hn.
        replace (Z.succ (Z.of_nat fuel) + 1) with (Z.succ (Z.of_nat fuel + 1)) in Hn by lia.
        rewrite Z.pow_succ_r in Hn by lia. lia. }
      exists (ds ++ [digit_char (n mod 10)]).
      rewrite E, <- app_assoc. split; [reflexivity|].
      split; [rewrite all_digits_app, Hds; cbn; rewrite Hd; reflexivity|].
      split; [|destruct ds; discriminate].
      rewrite decimal_value_app, Hval. cbn [length].
      unfold decimal_value at 1, digits_value. cbn. rewrite Hv. cbn.
      pose proof (Z.div_mod n 10 ltac:(lia)). lia.
Qed.

Lemma BigInt_toString_nonneg (z : Z) :
  0 <= z ->
  exists ds, BigInt_toString z = ds /\
             all_digits ds = true /\ decimal_value ds = z /\ ds <> [].
Proof.
  intros Hz. unfold BigInt_toString.
  destruct (Z.ltb_spec z 0); [lia|].
  rewrite Z.abs_eq by lia.
  destruct (digits_of_spec (Z.to_nat (Z.log2 z)) z []) as (ds & E & H1 & H2 & H3).
  { rewrite Z2Nat.id by apply Z.log2_nonneg.
    destruct (Z.eq_dec z 0) as [-> | Hnz]; [cbn; lia|].
    pose proof (Z.log2_spec z ltac:(lia)). rewrite <- Z.add_1_r in *. lia. }
  exists ds. rewrite E, app_nil_r. auto.
Qed.

Lemma BigInt_toString_neg (z : Z) :
  z < 0 ->
  exists ds, BigInt_toString z = "-"%char :: ds /\
             all_digits ds = true /\ decimal_value ds = - z /\ ds <> [].
Proof.
  intros Hz. unfold BigInt_toString.
  destruct (Z.ltb_spec z 0); [|lia].
  rewrite Z.abs_neq by lia.
  destruct (digits_of_spec (Z.to_nat (Z.log2 (- z))) (- z) []) as (ds & E & H1 & H2 & H3).
  { rewrite Z2Nat.id by apply Z.log2_nonneg.
    pose proof (Z.log2_spec (- z) ltac:(lia)). rewrite <- Z.add_1_r in *. lia. }
  exists ds. rewrite E, app_nil_r. auto.
Qed.

End Digits.

(* ================================================================== *)
(** * String methods on digit strings *)
(* ================================================================== *)

Section Strings.
Import JS.

Lemma all_digits_no_whitespace (s : jsstring) :
  all_digits s = true -> no_whitespace s = true.
Proof.
  unfold all_digits, no_whitespace. induction s as [|c s IH]; [reflexivity|].
  cbn [forallb]. intros H. apply andb_true_iff in H as [Hc Hs].
  rewrite (is_digit_not_whitespace c Hc), (IH Hs). reflexivity.
Qed.

Lemma trim_start_inv (s : jsstring) :
  exists ws, s = ws ++ trim_start s /\ forallb is_whitespace ws = true.
Proof.
  induction s as [|c s (ws & E & Hws)]; [exists []; auto|].
  cbn [trim_start]. destruct (is_whitespace c) eqn:Hc.
  - exists (c :: ws). cbn [forallb app]. rewrite Hc, Hws, <- E. auto.
  - exists []. auto.
Qed.

Lemma trim_end_inv (s : jsstring) :
  exists ws, s = trim_end s ++ ws /\ forallb is_whitespace ws = true.
Proof.
  induction s as [|c s (ws & E & Hws)]; [exists []; auto|].
  cbn [trim_end]. destruct (trim_end s) as [|d r] eqn:Ht.
  - destruct (is_whitespace c) eqn:Hc.
    + exists (c :: ws). cbn [forallb app] in *. rewrite Hc, Hws. split; [congruence | reflexivity].
    + exists ws. cbn [app] in *. split; congruence.
  - exists ws. cbn [app] in *. split; congruence.
Qed.

Lemma trim_inv (s : jsstring) :
  exists ws1 ws2, s = ws1 ++ trim s ++ ws2 /\
                  forallb is_whitespace ws1 = true /\
                  forallb is_whitespace ws2 = true.
Proof.
  destruct (trim_start_inv s) as (ws1 & E1 & H1).
  destruct (trim_end_inv (trim_start s)) as (ws2 & E2 & H2).
  exists ws1, ws2. unfold trim. rewrite <- E2, <- E1. auto.
Qed.

Lemma trim_start_head (c : ascii) (s : jsstring) :
  is_whitespace c = false -> trim_start (c :: s) = c :: s.
Proof. intros H. cbn [trim_start]. rewrite H. reflexivity. Qed.

Lemma trim_end_no_whitespace (s : jsstring) :
  no_whitespace s = true -> trim_end s = s.
Proof.
  unfold no_whitespace. induction s as [|c s IH]; [reflexivity|].
  cbn [forallb trim_end]. intros H. apply andb_true_iff in H as [Hc Hs].
  rewrite (IH Hs). destruct s; [|reflexivity].
  apply negb_true_iff in Hc. rewrite Hc. reflexivity.
Qed.

Lemma trim_end_whitespace (ws : jsstring) :
  forallb is_whitespace ws = true -> trim_end ws = [].
Proof.
  induction ws as [|c ws IH]; [reflexivity|].
  cbn [forallb trim_end]. intros H. apply andb_true_iff in H as [Hc Hs].
  rewrite (IH Hs), Hc. reflexivity.
Qed.

Lemma trim_end_app_whitespace (s ws : jsstring) :
  no_whitespace s = true -> forallb is_whitespace ws = true ->
  trim_end (s ++ ws) = s.
Proof.
  unfold no_whitespace. intros Hs Hws. induction s as [|c s IH].
  - apply trim_end_whitespace, Hws.
  - cbn [forallb] in Hs. apply andb_true_iff in Hs as [Hc Hs].
    cbn [app trim_end]. rewrite (IH Hs). destruct s; [|reflexivity].
    apply negb_true_iff in Hc. rewrite Hc. reflexivity.
Qed.

Lemma trim_no_whitespace (s : jsstring) :
  no_whitespace s = true -> trim s = s.
Proof.
  intros H. unfold trim.
  assert (trim_start s = s) as ->.
  { destruct s as [|c s]; [reflexivity|]. apply trim_start_head.
    unfold no_whitespace in H. cbn [forallb] in H.
    apply andb_true_iff in H as [Hc _]. apply negb_true_iff, Hc. }
  apply trim_end_no_whitespace, H.
Qed.

Lemma trim_digits_whitespace (ds ws : jsstring) :
  all_digits ds = true -> ds <> [] -> forallb is_whitespace ws = true ->
  trim (ds ++ ws) = ds.
Proof.
  intros Hds Hne Hws. unfold trim.
  destruct ds as [|c ds]; [contradiction|].
  pose proof (all_digits_no_whitespace _ Hds) as Hnw.
  cbn [app]. rewrite trim_start_head.
  - apply (trim_end_app_whitespace (c :: ds)); assumption.
  - cbn [all_digits forallb] in Hds. apply andb_true_iff in Hds as [Hc _].
    apply is_digit_not_whitespace, Hc.
Qed.

(** ** [indexOf], [replace] and [split] *)

Lemma contains_app (c : ascii) (a b : jsstring) :
  contains c (a ++ b) = contains c a || contains c b.
Proof. apply existsb_app. Qed.

Lemma contains_digits (c : ascii) (s : jsstring) :
  is_digit c = false -> all_digits s = true -> contains c s = false.
Proof.
  intros Hc. unfold all_digits, contains. induction s as [|a s IH]; [reflexivity|].
  cbn [forallb existsb]. intros H. apply andb_true_iff in H as [Ha Hs].
  rewrite (IH Hs), (is_digit_not_char c a Hc Ha). reflexivity.
Qed.

Lemma contains_false_replace_first (c : ascii) (by_ s : jsstring) :
  contains c s = false -> replace_first c by_ s = s.
Proof.
  unfold contains. induction s as [|a s IH]; [reflexivity|].
  cbn [existsb replace_first]. intros H. apply orb_false_iff in H as [Ha Hs].
  rewrite Ha, (IH Hs). reflexivity.
Qed.

Lemma split_no_separator (sep : ascii) (s : jsstring) :
  contains sep s = false -> split sep s = [s].
Proof.
  unfold contains. induction s as [|a s IH]; [reflexivity|].
  cbn [existsb split]. intros H. apply orb_false_iff in H as [Ha Hs].
  rewrite Ha, (IH Hs). reflexivity.
Qed.

Lemma split_at_first_separator (sep : ascii) (a b : jsstring) :
  contains sep a = false -> split sep (a ++ sep :: b) = a :: split sep b.
Proof.
  unfold contains. induction a as [|c a IH]; intros H.
  - cbn [app split]. unfold is_char. rewrite Ascii.eqb_refl. reflexivity.
  - cbn [existsb] in H. apply orb_false_iff in H as [Hc Ha].
    cbn [app split]. rewrite Hc, (IH Ha). reflexivity.
Qed.

(** ** The two regular-expression replacements of [#toString] *)

Lemma all_zeros_is_repeat (s : jsstring) :
  all_zeros s = true -> s = repeat "0"%char (length s).
Proof.
  unfold all_zeros. induction s as [|c s IH]; [reflexivity|].
  cbn [forallb length repeat]. intros H. apply andb_true_iff in H as [Hc Hs].
  unfold is_char in Hc. apply Ascii.eqb_eq in Hc. subst c. f_equal. exact (IH Hs).
Qed.

Lemma replace_dot_zeros_end_digits (s : jsstring) :
  all_digits s = true ->
  all_digits (replace_dot_zeros_end s) = true /\
  s = replace_dot_zeros_end s
      ++ repeat "0"%char (length s - length (replace_dot_zeros_end s)).
Proof.
  unfold all_digits. induction s as [|c s IH]; [auto|].
  cbn [forallb]. intros H. apply andb_true_iff in H as [Hc Hs].
  cbn [replace_dot_zeros_end].
  rewrite (is_digit_not_char "." c eq_refl Hc). cbn [andb orb].
  destruct (is_char "0" c && all_zeros s) eqn:Hz.
  - split; [reflexivity|]. cbn [app length]. rewrite Nat.sub_0_r.
    apply (all_zeros_is_repeat (c :: s)). exact Hz.
  - destruct (IH Hs) as [H1 H2]. cbn [forallb length app].
    rewrite Hc, H1. split; [reflexivity|].
    rewrite Nat.sub_succ. f_equal. exact H2.
Qed.

Lemma replace_dot_zeros_end_app (x y : jsstring) :
  all_zeros y = false ->
  replace_dot_zeros_end (x ++ y) = x ++ replace_dot_zeros_end y.
Proof.
  intros Hy. induction x as [|c x IH]; [reflexivity|].
  cbn [app replace_dot_zeros_end].
  assert (all_zeros (x ++ y) = false) as ->.
  { unfold all_zeros in *. rewrite forallb_app, Hy. apply andb_false_r. }
  rewrite !andb_false_r. cbn [orb]. rewrite IH. reflexivity.
Qed.

Lemma replace_dot_end_snoc (x : jsstring) (c : ascii) :
  replace_dot_end (x ++ [c]) = if is_char "." c then x else x ++ [c].
Proof.
  induction x as [|a x IH].
  - cbn [app replace_dot_end nonempty negb]. rewrite andb_true_r.
    destruct (is_char "." c); reflexivity.
  - cbn [app replace_dot_end]. rewrite IH.
    assert (nonempty (x ++ [c]) = true) as -> by (destruct x; reflexivity).
    rewrite andb_false_r. destruct (is_char "." c); reflexivity.
Qed.

Lemma replace_dot_end_digits (x f : jsstring) :
  all_digits f = true -> f <> [] -> replace_dot_end (x ++ f) = x ++ f.
Proof.
  intros Hf Hne. destruct (exists_last Hne) as (f' & c & ->).
  rewrite app_assoc, replace_dot_end_snoc.
  rewrite all_digits_app in Hf. apply andb_true_iff in Hf as [_ Hc].
  unfold all_digits in Hc. cbn [forallb] in Hc. rewrite andb_true_r in Hc.
  rewrite (is_digit_not_char "." c eq_refl Hc). reflexivity.
Qed.

End Strings.

(* ================================================================== *)
(** * [Number] and [BigInt] on digit strings *)
(* ================================================================== *)

Section Numerals.
Import JS.

Lemma is_digit_digit_char (c : ascii) :
  is_digit c = true -> c = digit_char (code c - 48).
Proof.
  intros _. unfold digit_char, code.
  replace (48 + (Z.of_N (N_of_ascii c) - 48)) with (Z.of_N (N_of_ascii c)) by lia.
  rewrite N2Z.id, ascii_N_embedding. reflexivity.
Qed.

Lemma NonDecimalIntegerLiteral_second_digit (z p : ascii) (ds : jsstring) :
  is_digit p = true -> NonDecimalIntegerLiteral (z :: p :: ds) = None.
Proof.
  intros Hp. unfold NonDecimalIntegerLiteral.
  rewrite !(fun a H => is_digit_not_char a p H Hp) by reflexivity.
  reflexivity.
Qed.

Lemma NonDecimalIntegerLiteral_digits (s : jsstring) :
  all_digits s = true -> NonDecimalIntegerLiteral s = None.
Proof.
  destruct s as [|z [|p ds]]; [reflexivity | reflexivity |].
  unfold all_digits. cbn [forallb]. intros H.
  apply andb_true_iff in H as [_ H]. apply andb_true_iff in H as [Hp _].
  apply NonDecimalIntegerLiteral_second_digit, Hp.
Qed.

Lemma NonDecimalIntegerLiteral_minus (s : jsstring) :
  NonDecimalIntegerLiteral ("-"%char :: s) = None.
Proof.
  destruct s as [|p ds]; [reflexivity|]. unfold NonDecimalIntegerLiteral.
  change (is_char "0" "-") with false. cbn [andb].
  repeat match goal with |- context [if ?b then _ else _] => destruct b end;
    reflexivity.
Qed.

Lemma NonDecimalIntegerLiteral_nonneg (s : jsstring) (n : Z) :
  NonDecimalIntegerLiteral s = Some n -> 0 <= n.
Proof.
  destruct s as [|z [|p ds]]; [discriminate | discriminate |].
  unfold NonDecimalIntegerLiteral.
  repeat match goal with |- context [if ?b then _ else _] => destruct b eqn:? end;
    try discriminate;
    intros [= <-];
    match goal with
    | H : _ && _ && forallb _ _ = true |- _ =>
        apply andb_true_iff in H as [_ H]; apply digits_value_nonneg; [lia | exact H]
    end.
Qed.

Lemma span_digits (s : jsstring) :
  all_digits s = true -> span is_digit s = (s, []).
Proof.
  unfold all_digits. induction s as [|c s IH]; [reflexivity|].
  cbn [forallb span]. intros H. apply andb_true_iff in H as [Hc Hs].
  rewrite Hc, (IH Hs). reflexivity.
Qed.

Lemma optional_sign_digit (c : ascii) (s : jsstring) :
  is_digit c = true -> optional_sign (c :: s) = (false, c :: s).
Proof.
  intros Hc. unfold optional_sign.
  rewrite (is_digit_not_char "-" c eq_refl Hc), (is_digit_not_char "+" c eq_refl Hc).
  reflexivity.
Qed.

(** [Number] reads a non-empty digit string as the integer it spells. *)
Lemma StringToNumber_digits (s : jsstring) :
  all_digits s = true -> s <> [] ->
  StringToNumber s = round_literal false (decimal_value s) 0.
Proof.
  intros Hs Hne. unfold StringToNumber.
  rewrite (trim_no_whitespace s) by (apply all_digits_no_whitespace, Hs).
  destruct s as [|c s]; [contradiction|].
  rewrite NonDecimalIntegerLiteral_digits by assumption.
  pose proof Hs as Hs'. unfold all_digits in Hs'. cbn [forallb] in Hs'.
  apply andb_true_iff in Hs' as [Hc _].
  rewrite optional_sign_digit by assumption.
  unfold StrUnsignedDecimalLiteral.
  rewrite bool_decide_eq_false_2.
  2:{ intros E. injection E as -> _. discriminate Hc. }
  rewrite span_digits by assumption.
  cbn [nonempty orb ExponentPart length]. rewrite app_nil_r. reflexivity.
Qed.

Lemma Number_isFinite_digits (s : jsstring) :
  all_digits s = true ->
  Number_isFinite (StringToNumber s) = (decimal_value s <? double_overflow).
Proof.
  intros Hs. destruct s as [|c s]; [reflexivity|].
  rewrite StringToNumber_digits by (assumption || discriminate).
  unfold round_literal, overflows. cbn [Z.leb Z.compare]. rewrite Z.pow_0_r, Z.mul_1_r.
  rewrite Z.ltb_antisym. destruct (double_overflow <=? decimal_value (c :: s)); reflexivity.
Qed.

Lemma Number_ge_5_digit (d : Z) :
  0 <= d <= 9 ->
  Number_ge_5 (StringToNumber [digit_char d]) = (5 <=? d).
Proof.
  intros H.
  assert (d = 0 \/ d = 1 \/ d = 2 \/ d = 3 \/ d = 4 \/
          d = 5 \/ d = 6 \/ d = 7 \/ d = 8 \/ d = 9) as Hd by lia.
  repeat (destruct Hd as [-> | Hd]; [vm_compute; reflexivity|]).
  subst d. vm_compute. reflexivity.
Qed.

(** [BigInt] reads an optional minus sign followed by digits. *)
Lemma StringToBigInt_digits (negative : bool) (ds : jsstring) :
  all_digits ds = true -> ds <> [] ->
  StringToBigInt ((if negative then str "-" else []) ++ ds) =
  Some (if negative then - decimal_value ds else decimal_value ds).
Proof.
  intros Hds Hne. unfold StringToBigInt.
  pose proof (all_digits_no_whitespace _ Hds) as Hnw.
  destruct ds as [|c ds]; [contradiction|].
  pose proof Hds as Hds'. unfold all_digits in Hds'. cbn [forallb] in Hds'.
  apply andb_true_iff in Hds' as [Hc _].
  destruct negative; cbn [str list_ascii_of_string app].
  - rewrite trim_no_whitespace.
    2:{ unfold no_whitespace in *. cbn [forallb] in *. exact Hnw. }
    rewrite NonDecimalIntegerLiteral_minus.
    cbn [optional_sign]. change (is_char "-" "-") with true. cbv iota.
    cbn [nonempty andb]. rewrite Hds. reflexivity.
  - rewrite trim_no_whitespace by assumption.
    rewrite NonDecimalIntegerLiteral_digits by assumption.
    rewrite optional_sign_digit by assumption.
    cbn [nonempty andb]. rewrite Hds. reflexivity.
Qed.

End Numerals.

(* ================================================================== *)
(** * The constructor on decimal numerals *)
(* ================================================================== *)

Section Constructor.
Import JS.

Lemma kept_fraction_length (f : jsstring) : length (kept_fraction f) = 32%nat.
Proof.
  unfold kept_fraction. rewrite length_firstn, length_app, repeat_length. lia.
Qed.

Lemma kept_fraction_digits (f : jsstring) :
  all_digits f = true -> all_digits (kept_fraction f) = true.
Proof.
  intros Hf. unfold kept_fraction.
  assert (H : all_digits (f ++ repeat "0"%char (32 - length f)) = true).
  { rewrite all_digits_app, Hf, all_digits_repeat_0. reflexivity. }
  rewrite <- (firstn_skipn 32 (f ++ repeat "0"%char (32 - length f))) in H.
  rewrite all_digits_app in H. apply andb_true_iff in H as [H _]. exact H.
Qed.

Lemma constructor_parts_numeral (negative : bool) (i f : jsstring) :
  all_digits i = true -> all_digits f = true ->
  MidaDecimal.constructor_parts (numeral negative i f) = (negative, i, f).
Proof.
  intros Hi Hf. unfold MidaDecimal.constructor_parts, numeral.
  assert (Hsign : contains "." ((if negative then str "-" else []) ++ i) = false).
  { rewrite contains_app, (contains_digits "." i eq_refl Hi).
    destruct negative; reflexivity. }
  assert (Hsplit : split "." (((if negative then str "-" else []) ++ i) ++
                    (if nonempty f then "."%char :: f else [])) ++ [[]]
                   = [(if negative then str "-" else []) ++ i; f] ++
                     (if nonempty f then [[]] else [])).
  { destruct f as [|c f]; cbn [nonempty].
    - rewrite app_nil_r, split_no_separator by assumption. reflexivity.
    - rewrite split_at_first_separator by assumption.
      rewrite split_no_separator by (apply contains_digits; auto). reflexivity. }
  rewrite app_assoc, Hsplit. cbn [nth app].
  rewrite (contains_digits "-" f eq_refl Hf).
  rewrite contains_app, (contains_digits "-" i eq_refl Hi), orb_false_r.
  destruct negative; reflexivity.
Qed.

(** The constructor accepts a numeral whose integer and fractional digits
    each spell an integer below the double overflow bound, and yields the
    signed integer spelt by the integer digits followed by the 32 kept
    fractional digits, plus 1 when the first dropped digit is 5 or more. *)
Lemma new_numeral (negative : bool) (i f : jsstring) :
  all_digits i = true -> all_digits f = true ->
  decimal_value i < double_overflow ->
  decimal_value f < double_overflow ->
  MidaDecimal.new (numeral negative i f) =
  Normal (MidaDecimal.mk
            ((if negative then - decimal_value (i ++ kept_fraction f)
              else decimal_value (i ++ kept_fraction f))
             + (if excess_digit_ge_5 f then 1 else 0))).
Proof.
  intros Hi Hf Bi Bf. unfold MidaDecimal.new.
  rewrite constructor_parts_numeral by assumption.
  unfold Number_. rewrite !Number_isFinite_digits by assumption.
  apply Z.ltb_lt in Bi, Bf. rewrite Bi, Bf. cbn [negb orb].
  unfold BigInt_of_string, slice_to, padEnd, MidaDecimal.decimals.
  fold (kept_fraction f).
  rewrite StringToBigInt_digits.
  - cbn [mbind completion_bind bind]. do 2 f_equal.
    unfold MidaDecimal.rounded, char_at, excess_digit_ge_5, BigInt_of_bool.
    cbn [andb]. destruct (nth_error f 32) as [c|] eqn:Hc; [|reflexivity].
    cbn [option_map].
    assert (Hd : is_digit c = true).
    { unfold all_digits in Hf. rewrite forallb_forall in Hf.
      apply Hf. eapply nth_error_In, Hc. }
    rewrite (is_digit_digit_char c Hd) at 1.
    rewrite Number_ge_5_digit by (apply is_digit_value, Hd). reflexivity.
  - rewrite all_digits_app, Hi, kept_fraction_digits by assumption. reflexivity.
  - intros E. apply (f_equal (@length ascii)) in E.
    rewrite length_app, kept_fraction_length in E. cbn in E. lia.
Qed.

End Constructor.

(* ================================================================== *)
(** * [#toString] writes a numeral *)
(* ================================================================== *)

Section ToString.
Import JS.

Lemma kept_fraction_short (f : jsstring) :
  (length f <= 32)%nat ->
  kept_fraction f = f ++ repeat "0"%char (32 - length f).
Proof.
  intros H. unfold kept_fraction. apply firstn_all2.
  rewrite length_app, repeat_length. lia.
Qed.

Lemma all_digits_firstn_skipn (k : nat) (s : jsstring) :
  all_digits s = true ->
  all_digits (firstn k s) = true /\ all_digits (skipn k s) = true.
Proof.
  intros H. rewrite <- (firstn_skipn k s), all_digits_app in H.
  apply andb_true_iff in H. exact H.
Qed.

Lemma replace_first_at (c : ascii) (by_ x y : jsstring) :
  contains c x = false -> replace_first c by_ (x ++ c :: y) = x ++ by_ ++ y.
Proof.
  unfold contains. induction x as [|a x IH]; intros H.
  - cbn [app replace_first]. unfold is_char. rewrite Ascii.eqb_refl. reflexivity.
  - cbn [existsb] in H. apply orb_false_iff in H as [Ha Hx].
    cbn [app replace_first]. rewrite Ha, (IH Hx). reflexivity.
Qed.

(** The text after the sign: integer digits, and the last 32 digits with
    their trailing zeros dropped behind a dot. *)
Lemma toString_body (i dec0 : jsstring) :
  all_digits i = true -> all_digits dec0 = true -> length dec0 = 32%nat ->
  let f := replace_dot_zeros_end dec0 in
  replace_dot_end (i ++ str "." ++ f) =
    i ++ (if nonempty f then "."%char :: f else [])
  /\ all_digits f = true /\ (length f <= 32)%nat /\ kept_fraction f = dec0.
Proof.
  intros Hi Hd Hlen f.
  destruct (replace_dot_zeros_end_digits dec0 Hd) as [Hf E]. fold f in Hf, E.
  assert (Hle : (length f <= 32)%nat).
  { apply (f_equal (@length ascii)) in E. rewrite length_app in E. lia. }
  split; [|split; [exact Hf | split; [exact Hle|]]].
  - change (str ".") with ["."%char]. destruct f as [|c f'] eqn:Ef.
    + cbn [nonempty]. rewrite !app_nil_r, replace_dot_end_snoc.
      change (is_char "." ".") with true. reflexivity.
    + cbn [nonempty]. change (i ++ ["."%char] ++ c :: f') with (i ++ "."%char :: c :: f').
      replace (i ++ "."%char :: c :: f') with ((i ++ ["."%char]) ++ c :: f')
        by (rewrite <- app_assoc; reflexivity).
      rewrite replace_dot_end_digits by (assumption || discriminate).
      rewrite <- app_assoc. reflexivity.
  - rewrite kept_fraction_short by exact Hle. rewrite Hlen in E. symmetry. exact E.
Qed.

Lemma decimal_value_positive_not_zeros (s : jsstring) :
  0 < decimal_value s -> all_zeros s = false.
Proof.
  intros H. destruct (all_zeros s) eqn:E; [|reflexivity].
  rewrite all_zeros_value in H by assumption. lia.
Qed.

(** [#toString] of any bigint is a numeral: a minus sign exactly for the
    negative values, digits, and at most 32 fractional digits which, padded
    back to 32, spell the magnitude together with the integer digits. *)
Lemma toString_value_numeral (v : Z) :
  exists i f,
    MidaDecimal.toString_value v = numeral (v <? 0) i f /\
    all_digits i = true /\ all_digits f = true /\ (length f <= 32)%nat /\
    decimal_value (i ++ kept_fraction f) = Z.abs v.
Proof.
  unfold MidaDecimal.toString_value, padStart, slice_to_neg, slice_from_neg,
    MidaDecimal.decimals.
  destruct (Z.ltb_spec v 0) as [Hneg | Hpos].
  - (* negative *)
    destruct (BigInt_toString_neg v Hneg) as (ds & -> & Hds & Hval & Hne).
    cbn [length]. set (n := length ds).
    assert (Hn : (1 <= n)%nat) by (destruct ds; [contradiction | cbn; lia]).
    destruct (le_lt_dec 32 n) as [Hbig | Hsmall].
    + (* at least 32 digits: the sign stays in front of the integer digits *)
      replace (32 + 1 - S n)%nat with 0%nat by lia. cbn [repeat app length].
      fold n. replace (S n - 32)%nat with (S (n - 32)) by lia.
      cbn [firstn skipn].
      destruct (all_digits_firstn_skipn (n - 32) ds Hds) as [Hi Hd].
      assert (Hlen : length (skipn (n - 32) ds) = 32%nat)
        by (rewrite length_skipn; fold n; lia).
      destruct (toString_body _ _ Hi Hd Hlen) as (Hbody & Hf & Hle & Hk).
      rewrite (contains_digits "-" _ eq_refl Hf).
      cbn [contains existsb]. change (is_char "-" "-") with true. cbn [orb].
      cbn [replace_first]. change (is_char "-" "-") with true. cbv iota. cbn [app].
      exists (firstn (n - 32) ds), (replace_dot_zeros_end (skipn (n - 32) ds)).
      split; [|split; [exact Hi | split; [exact Hf | split; [exact Hle|]]]].
      * unfold numeral. rewrite <- Hbody. reflexivity.
      * rewrite Hk, firstn_skipn, Hval. lia.
    + (* fewer than 32 digits: the sign lands inside the padded fraction *)
      replace (32 + 1 - S n)%nat with (S (31 - n)) by lia.
      cbn [repeat app]. cbn [length].
      rewrite length_app, repeat_length. cbn [length]. fold n.
      replace (S (31 - n + S n) - 32)%nat with 1%nat by lia.
      cbn [firstn skipn].
      assert (Hnz : all_zeros ds = false)
        by (apply decimal_value_positive_not_zeros; lia).
      rewrite !take_0, !drop_0.
      replace (repeat "0"%char (31 - n) ++ "-"%char :: ds)
        with ((repeat "0"%char (31 - n) ++ ["-"%char]) ++ ds)
        by (rewrite <- app_assoc; reflexivity).
      rewrite replace_dot_zeros_end_app by exact Hnz.
      destruct (replace_dot_zeros_end_digits ds Hds) as [Hf E].
      set (f := replace_dot_zeros_end ds) in *.
      rewrite <- app_assoc. cbn [app].
      assert (Hc : contains "-" (repeat "0"%char (31 - n) ++ "-"%char :: f) = true).
      { rewrite contains_app. cbn [contains existsb].
        change (is_char "-" "-") with true. rewrite orb_true_l, orb_true_r. reflexivity. }
      rewrite Hc.
      rewrite replace_first_at
        by (apply contains_digits; [reflexivity | apply all_digits_repeat_0]).
      change (contains "-" ["0"%char]) with false. cbv iota.
      change (str "0") with ["0"%char]. change (str ".") with ["."%char].
      set (g := repeat "0"%char (31 - n) ++ ["0"%char] ++ f).
      assert (Hg : all_digits g = true).
      { unfold g. rewrite !all_digits_app, all_digits_repeat_0, Hf. reflexivity. }
      assert (Hgne : g <> []).
      { unfold g. destruct (repeat "0"%char (31 - n)); discriminate. }
      assert (Hfl : (length f <= n)%nat).
      { apply (f_equal (@length ascii)) in E. rewrite length_app in E. fold n in E. lia. }
      assert (Hgl : (length g <= 32)%nat).
      { unfold g. rewrite !length_app, repeat_length. cbn [length]. lia. }
      exists ["0"%char], g.
      split; [|split; [reflexivity | split; [exact Hg | split; [exact Hgl|]]]].
      * unfold numeral. assert (nonempty g = true) as ->
          by (destruct g; [contradiction | reflexivity]).
        change (["0"%char] ++ ["."%char] ++ g) with (["0"%char; "."%char] ++ g).
        rewrite replace_dot_end_digits by assumption. reflexivity.
      * rewrite kept_fraction_short by exact Hgl.
        assert (Eg : g ++ repeat "0"%char (32 - length g)
                     = repeat "0"%char (32 - n) ++ ds).
        { unfold g. rewrite !length_app, repeat_length. cbn [length].
          rewrite E at 1. fold n.
          replace (32 - n)%nat with ((31 - n) + 1)%nat by lia.
          rewrite repeat_app. cbn [repeat]. rewrite <- !app_assoc. cbn [app].
          do 4 f_equal. lia. }
        rewrite Eg. change (["0"%char]) with (repeat "0"%char 1).
        rewrite !decimal_value_pad_left, Hval. lia.
  - (* non-negative *)
    destruct (BigInt_toString_nonneg v Hpos) as (ds & -> & Hds & Hval & Hne).
    set (p := repeat "0"%char (32 + 1 - length ds) ++ ds).
    assert (Hp : all_digits p = true).
    { unfold p. rewrite all_digits_app, all_digits_repeat_0, Hds. reflexivity. }
    assert (Hpl : (33 <= length p)%nat).
    { unfold p. rewrite length_app, repeat_length. lia. }
    destruct (all_digits_firstn_skipn (length p - 32) p Hp) as [Hi Hd].
    assert (Hlen : length (skipn (length p - 32) p) = 32%nat)
      by (rewrite length_skipn; lia).
    destruct (toString_body _ _ Hi Hd Hlen) as (Hbody & Hf & Hle & Hk).
    rewrite (contains_digits "-" _ eq_refl Hf).
    rewrite (contains_digits "-" _ eq_refl Hi). cbn [app].
    exists (firstn (length p - 32) p), (replace_dot_zeros_end (skipn (length p - 32) p)).
    split; [|split; [exact Hi | split; [exact Hf | split; [exact Hle|]]]].
    + unfold numeral. rewrite <- Hbody. reflexivity.
    + rewrite Hk, firstn_skipn. unfold p. rewrite decimal_value_pad_left, Hval. lia.
Qed.

End ToString.

(* ================================================================== *)
(** * Reading back the output of [#toString] *)
(* ================================================================== *)

Section RoundTrip.
Import JS.

Lemma excess_digit_short (f : jsstring) :
  (length f <= 32)%nat -> excess_digit_ge_5 f = false.
Proof.
  intros H. unfold excess_digit_ge_5.
  rewrite (proj2 (nth_error_None f 32)) by exact H. reflexivity.
Qed.

Lemma decimal_value_with_fraction (i f : jsstring) :
  all_digits f = true ->
  decimal_value i * 10 ^ 32 <= decimal_value (i ++ kept_fraction f)
    < (decimal_value i + 1) * 10 ^ 32.
Proof.
  intros Hf. rewrite decimal_value_app, kept_fraction_length.
  pose proof (decimal_value_bounds _ (kept_fraction_digits f Hf)) as B.
  rewrite kept_fraction_length in B. change (Z.of_nat 32) with 32 in *. lia.
Qed.

Lemma short_fraction_finite (f : jsstring) :
  all_digits f = true -> (length f <= 32)%nat ->
  decimal_value f < double_overflow.
Proof.
  intros Hf Hl. pose proof (decimal_value_bounds f Hf) as B.
  assert (10 ^ Z.of_nat (length f) <= 10 ^ 32)
    by (apply Z.pow_le_mono_r; lia).
  assert (10 ^ 32 < double_overflow) by (vm_compute; reflexivity).
  lia.
Qed.

Lemma new_toString_value (v : Z) :
  readable v ->
  MidaDecimal.new (MidaDecimal.toString_value v) = Normal (MidaDecimal.mk v).
Proof.
  unfold readable. intros Hv.
  destruct (toString_value_numeral v) as (i & f & -> & Hi & Hf & Hl & Hval).
  pose proof (decimal_value_with_fraction i f Hf) as B.
  pose proof (decimal_value_bounds i Hi) as Bi.
  rewrite new_numeral; try assumption.
  - rewrite excess_digit_short, Hval by exact Hl. do 2 f_equal.
    destruct (Z.ltb_spec v 0); lia.
  - nia.
  - apply short_fraction_finite; assumption.
Qed.

Lemma new_numeral_overflow (negative : bool) (i f : jsstring) :
  all_digits i = true -> all_digits f = true ->
  double_overflow <= decimal_value i ->
  MidaDecimal.new (numeral negative i f) = Throw Error.
Proof.
  intros Hi Hf Bi. unfold MidaDecimal.new.
  rewrite constructor_parts_numeral by assumption.
  unfold Number_. rewrite (Number_isFinite_digits i Hi).
  apply Z.ltb_ge in Bi. rewrite Bi. reflexivity.
Qed.

Lemma new_toString_value_unreadable (v : Z) :
  ~ readable v ->
  MidaDecimal.new (MidaDecimal.toString_value v) = Throw Error.
Proof.
  unfold readable. intros Hv.
  destruct (toString_value_numeral v) as (i & f & -> & Hi & Hf & Hl & Hval).
  pose proof (decimal_value_with_fraction i f Hf) as B.
  apply new_numeral_overflow; try assumption. nia.
Qed.

Lemma decimal_OfDecimal (d : MidaDecimal.t) :
  readable (MidaDecimal.value d) ->
  MidaDecimal.decimal (MidaDecimal.OfDecimal d) = Normal d.
Proof.
  intros H. unfold MidaDecimal.decimal, MidaDecimal.String_, MidaDecimal.toString.
  rewrite new_toString_value by exact H. destruct d; reflexivity.
Qed.

Lemma decimal_OfDecimal_unreadable (d : MidaDecimal.t) :
  ~ readable (MidaDecimal.value d) ->
  MidaDecimal.decimal (MidaDecimal.OfDecimal d) = Throw Error.
Proof.
  intros H. unfold MidaDecimal.decimal, MidaDecimal.String_, MidaDecimal.toString.
  apply new_toString_value_unreadable, H.
Qed.

Lemma decimal_toString_value (v : Z) :
  readable v ->
  MidaDecimal.decimal (MidaDecimal.OfString (MidaDecimal.toString_value v))
  = Normal (MidaDecimal.mk v).
Proof. apply new_toString_value. Qed.

End RoundTrip.

(* ================================================================== *)
(** * Negative decimals come from readable numerals *)
(* ================================================================== *)

Section Negative.
Import JS.

Lemma StringToBigInt_negative (x : jsstring) (z : Z) :
  StringToBigInt x = Some z -> z < 0 ->
  exists ds, trim x = "-"%char :: ds /\ all_digits ds = true /\ ds <> [] /\
             z = - decimal_value ds.
Proof.
  unfold StringToBigInt. intros H Hz.
  destruct (trim x) as [|a r] eqn:Ht; [injection H as <-; lia|].
  destruct (NonDecimalIntegerLiteral (a :: r)) as [n|] eqn:Hn.
  - injection H as <-. apply NonDecimalIntegerLiteral_nonneg in Hn. lia.
  - unfold optional_sign in H.
    destruct (is_char "-" a) eqn:Ha.
    + destruct (nonempty r && all_digits r) eqn:Hr; [|discriminate].
      apply andb_true_iff in Hr as [Hne Hr]. injection H as <-.
      unfold is_char in Ha. apply Ascii.eqb_eq in Ha. subst a.
      exists r. repeat split; [assumption | destruct r; discriminate].
    + exfalso. destruct (is_char "+" a);
        match type of H with
        | (if nonempty ?l && all_digits ?l then _ else _) = _ =>
            destruct (nonempty l && all_digits l) eqn:Hr; [|discriminate];
            apply andb_true_iff in Hr as [_ Hr]; injection H as <-;
            pose proof (decimal_value_bounds l Hr); lia
        end.
Qed.

Lemma StringToNumber_trim (s s' : jsstring) :
  trim s = trim s' -> StringToNumber s = StringToNumber s'.
Proof. unfold StringToNumber. intros ->. reflexivity. Qed.

Lemma contains_firstn (c : ascii) (n : nat) (s : jsstring) :
  contains c s = false -> contains c (firstn n s) = false.
Proof.
  intros H. rewrite <- (firstn_skipn n s), contains_app in H.
  apply orb_false_iff in H as [H _]. exact H.
Qed.

Lemma contains_repeat_0 (n : nat) : contains "-" (repeat "0"%char n) = false.
Proof. apply contains_digits; [reflexivity | apply all_digits_repeat_0]. Qed.

(** When the constructor finds no minus sign, none is left in either part. *)
Lemma constructor_parts_positive (s i f : jsstring) :
  MidaDecimal.constructor_parts s = (false, i, f) ->
  contains "-" i = false /\ contains "-" f = false.
Proof.
  unfold MidaDecimal.constructor_parts.
  destruct (contains "-" (nth 1 (split "." s ++ [[]]) [])) eqn:Hf;
  destruct (contains "-" (nth 0 (split "." s ++ [[]]) [])) eqn:Hi;
    intros [= <- <-]; try discriminate; auto.
Qed.

Lemma whitespace_sublist (m x ws : jsstring) :
  forallb is_whitespace ws = true -> ws = m ++ x ->
  forallb is_whitespace m = true.
Proof.
  intros H ->. rewrite forallb_app in H. apply andb_true_iff in H as [H _]. exact H.
Qed.

(** A negative value built by the constructor has an integer part that
    [Number] reads as finite, so its [toString] output is accepted again. *)
Lemma new_negative_readable (s : jsstring) (d : MidaDecimal.t) :
  MidaDecimal.new s = Normal d -> MidaDecimal.value d < 0 ->
  readable (MidaDecimal.value d).
Proof.
  unfold MidaDecimal.new.
  destruct (MidaDecimal.constructor_parts s) as [[negative i] f] eqn:Hp.
  destruct (Number_isFinite (Number_ (Some i))) eqn:Fi; [|discriminate].
  destruct (Number_isFinite (Number_ (Some f))) eqn:Ff; [|discriminate].
  cbn [negb orb]. unfold BigInt_of_string, slice_to, padEnd, MidaDecimal.decimals.
  fold (kept_fraction f).
  destruct (StringToBigInt _) as [z|] eqn:Hz; [|discriminate].
  cbn [mbind completion_bind bind]. intros [= <-]. cbn [MidaDecimal.value].
  set (r := BigInt_of_bool _).
  assert (Hr : 0 <= r <= 1).
  { unfold r, BigInt_of_bool.
    match goal with |- context [if ?b then _ else _] => destruct b end; lia. }
  clearbody r.
  intros Hneg.
  destruct (StringToBigInt_negative _ _ Hz ltac:(lia)) as (ds & Ht & Hds & Hne & ->).
  destruct (trim_inv ((if negative then str "-" else []) ++ i ++ kept_fraction f))
    as (ws1 & ws2 & E & Hw1 & Hw2).
  rewrite Ht in E.
  assert (Hbound : decimal_value ds < double_overflow * 10 ^ 32);
    [|unfold readable; lia].
  destruct negative.
  - (* the sign is the first character, so nothing blank precedes it *)
    destruct ws1 as [|w ws1].
    2:{ cbn in E. injection E as <- _. discriminate Hw1. }
    cbn [str list_ascii_of_string app] in E. injection E as E.
    apply app_eq_app in E as [m [[Ei Ew] | [Ed Ek]]].
    + (* the integer part holds all the digits *)
      assert (Hm : forallb is_whitespace m = true)
        by (eapply whitespace_sublist; eassumption).
      unfold Number_ in Fi.
      rewrite (StringToNumber_trim i ds) in Fi.
      2:{ rewrite Ei, trim_digits_whitespace by assumption.
          symmetry. apply trim_no_whitespace, all_digits_no_whitespace, Hds. }
      rewrite Number_isFinite_digits in Fi by assumption.
      apply Z.ltb_lt in Fi.
      pose proof (decimal_value_bounds ds Hds). lia.
    + (* the digits continue into the kept fraction *)
      rewrite Ed, all_digits_app in Hds. apply andb_true_iff in Hds as [Hi Hm].
      unfold Number_ in Fi. rewrite Number_isFinite_digits in Fi by assumption.
      apply Z.ltb_lt in Fi.
      assert (Hl : (length m <= 32)%nat).
      { apply (f_equal (@length ascii)) in Ek.
        rewrite kept_fraction_length, length_app in Ek. lia. }
      rewrite Ed, decimal_value_app.
      pose proof (decimal_value_bounds m Hm) as Bm.
      pose proof (decimal_value_bounds i Hi) as Bi.
      assert (10 ^ Z.of_nat (length m) <= 10 ^ 32)
        by (apply Z.pow_le_mono_r; lia).
      nia.
  - (* without a sign found, the text holds no minus at all *)
    exfalso. destruct (constructor_parts_positive _ _ _ Hp) as [Ci Cf].
    assert (C : contains "-" (i ++ kept_fraction f) = false).
    { rewrite contains_app, Ci. unfold kept_fraction.
      rewrite contains_firstn; [reflexivity|].
      rewrite contains_app, Cf. apply contains_repeat_0. }
    assert (C' : contains "-" (ws1 ++ ("-"%char :: ds) ++ ws2) = true).
    { unfold contains. rewrite !existsb_app. cbn [existsb].
      change (is_char "-" "-") with true. cbn [orb]. apply orb_true_r. }
    change ([] ++ i ++ kept_fraction f) with (i ++ kept_fraction f) in E.
    rewrite E in C. congruence.
Qed.

End Negative.

(* ================================================================== *)
(** * The operations of the class *)
(* ================================================================== *)

Section Operations.
Import JS.

Lemma shift_eq : MidaDecimal.shift = 10 ^ 32.
Proof. reflexivity. Qed.

Lemma readable_0 : readable 0.
Proof. unfold readable. vm_compute. reflexivity. Qed.

Lemma decimal_number_0 :
  MidaDecimal.decimal MidaDecimal.number_0 = Normal (MidaDecimal.mk 0).
Proof. vm_compute. reflexivity. Qed.

Lemma decimal_number_minus_1 :
  MidaDecimal.decimal MidaDecimal.number_minus_1
  = Normal (MidaDecimal.mk (- 10 ^ 32)).
Proof. vm_compute. reflexivity. Qed.

Lemma readable_opp (v : Z) : readable v -> readable (- v).
Proof. unfold readable. rewrite Z.abs_opp. auto. Qed.

(** The comparisons, on an operand that reads back. *)
Lemma equals_readable (a b : MidaDecimal.t) :
  readable (MidaDecimal.value b) ->
  MidaDecimal.equals a (MidaDecimal.OfDecimal b)
  = Normal (MidaDecimal.value a =? MidaDecimal.value b).
Proof. intros H. unfold MidaDecimal.equals. rewrite decimal_OfDecimal by exact H. reflexivity. Qed.

Lemma lessThan_readable (a b : MidaDecimal.t) :
  readable (MidaDecimal.value b) ->
  MidaDecimal.lessThan a (MidaDecimal.OfDecimal b)
  = Normal (MidaDecimal.value a <? MidaDecimal.value b).
Proof. intros H. unfold MidaDecimal.lessThan. rewrite decimal_OfDecimal by exact H. reflexivity. Qed.

Lemma greaterThan_readable (a b : MidaDecimal.t) :
  readable (MidaDecimal.value b) ->
  MidaDecimal.greaterThan a (MidaDecimal.OfDecimal b)
  = Normal (MidaDecimal.value a >? MidaDecimal.value b).
Proof. intros H. unfold MidaDecimal.greaterThan. rewrite decimal_OfDecimal by exact H. reflexivity. Qed.

Lemma add_readable (a b : MidaDecimal.t) :
  readable (MidaDecimal.value b) ->
  readable (MidaDecimal.value a + MidaDecimal.value b) ->
  MidaDecimal.add a (MidaDecimal.OfDecimal b)
  = Normal (MidaDecimal.mk (MidaDecimal.value a + MidaDecimal.value b)).
Proof.
  intros Hb Hs. unfold MidaDecimal.add. rewrite decimal_OfDecimal by exact Hb.
  cbn [mbind completion_bind bind]. apply decimal_toString_value, Hs.
Qed.

Lemma subtract_readable (a b : MidaDecimal.t) :
  readable (MidaDecimal.value b) ->
  readable (MidaDecimal.value a - MidaDecimal.value b) ->
  MidaDecimal.subtract a (MidaDecimal.OfDecimal b)
  = Normal (MidaDecimal.mk (MidaDecimal.value a - MidaDecimal.value b)).
Proof.
  intros Hb Hs. unfold MidaDecimal.subtract. rewrite decimal_OfDecimal by exact Hb.
  cbn [mbind completion_bind bind]. apply decimal_toString_value, Hs.
Qed.

Lemma multiply_minus_1 (x : MidaDecimal.t) :
  readable (MidaDecimal.value x) ->
  MidaDecimal.multiply x MidaDecimal.number_minus_1
  = Normal (MidaDecimal.mk (- MidaDecimal.value x)).
Proof.
  intros H. unfold MidaDecimal.multiply. rewrite decimal_number_minus_1.
  cbn [mbind completion_bind bind MidaDecimal.value].
  unfold MidaDecimal.divideRound. rewrite shift_eq.
  replace (MidaDecimal.value x * - 10 ^ 32)
    with (- MidaDecimal.value x * 10 ^ 32) by ring.
  rewrite divideRound_value_exact by (vm_compute; discriminate).
  cbn [mbind completion_bind bind].
  apply decimal_toString_value, readable_opp, H.
Qed.

(** [min] and [max] only ever look at their first argument. *)
Lemma extreme_loop_first
    (better : MidaDecimal.t -> MidaDecimal.MidaDecimalConvertible -> completion bool)
    (operands : list MidaDecimal.t) (first : MidaDecimal.t) (b : bool) :
  better first (MidaDecimal.OfDecimal first) = Normal b ->
  forall rounds i,
    MidaDecimal.extreme_loop better (first :: operands) first i rounds first
    = Normal first.
Proof.
  intros Hb. induction rounds as [|rounds IH]; intros i; [reflexivity|].
  cbn [MidaDecimal.extreme_loop nth]. rewrite Hb.
  cbn [mbind completion_bind bind]. destruct b; apply IH.
Qed.

Lemma min_is_first (first : MidaDecimal.t) (rest : list MidaDecimal.t) :
  readable (MidaDecimal.value first) ->
  MidaDecimal.min (first :: rest) = Normal (Some first).
Proof.
  intros H. unfold MidaDecimal.min.
  rewrite (extreme_loop_first _ rest first _ (lessThan_readable first first H)).
  reflexivity.
Qed.

Lemma max_is_first (first : MidaDecimal.t) (rest : list MidaDecimal.t) :
  readable (MidaDecimal.value first) ->
  MidaDecimal.max (first :: rest) = Normal (Some first).
Proof.
  intros H. unfold MidaDecimal.max.
  rewrite (extreme_loop_first _ rest first _ (greaterThan_readable first first H)).
  reflexivity.
Qed.

(** How the constructor rounds a numeral with more than 32 fractional
    digits whose 33rd digit is 5 or more. *)
Lemma new_rounds_nonnegative (i f : jsstring) :
  all_digits i = true -> all_digits f = true ->
  decimal_value i < double_overflow -> decimal_value f < double_overflow ->
  excess_digit_ge_5 f = true ->
  MidaDecimal.new (numeral false i f)
  = Normal (MidaDecimal.mk (decimal_value (i ++ kept_fraction f) + 1)).
Proof. intros Hi Hf Bi Bf He. rewrite new_numeral, He by assumption. reflexivity. Qed.

Lemma new_rounds_negative (i f : jsstring) :
  all_digits i = true -> all_digits f = true ->
  decimal_value i < double_overflow -> decimal_value f < double_overflow ->
  excess_digit_ge_5 f = true ->
  MidaDecimal.new (numeral true i f)
  = Normal (MidaDecimal.mk (- decimal_value (i ++ kept_fraction f) + 1)).
Proof. intros Hi Hf Bi Bf He. rewrite new_numeral, He by assumption. reflexivity. Qed.

Lemma carry_input_value :
  MidaDecimal.new carry_input
  = Normal (MidaDecimal.mk (double_overflow * 10 ^ 32)).
Proof. vm_compute. reflexivity. Qed.

Example carry_input_literal :
  carry_input = str "179769313486231580793728971405303415079934132710037826936173778980444968292764750946649017977587207096330286416692887910946555547851940402630657488671505820681908902000708383676273854845817711531764475730270069855571366959622842914819860834936475292719074168444365510704342711559699508093042880177904174497791.999999999999999999999999999999995".
Proof. vm_compute. reflexivity. Qed.

Lemma carry_value_unreadable : ~ readable (double_overflow * 10 ^ 32).
Proof. unfold readable. vm_compute. discriminate. Qed.

(** ** The class at work *)

Example toString_examples :
  map MidaDecimal.toString_value
      [0; 1; -1; 10 ^ 32; - 10 ^ 31; 15 * 10 ^ 31; -500; 123 * 10 ^ 30]
  = map str ["0"; "0.00000000000000000000000000000001";
             "-0.00000000000000000000000000000001"; "1"; "-.1"; "1.5";
             "-0.000000000000000000000000000005"; "1.23"]%string.
Proof. vm_compute. reflexivity. Qed.

Example new_examples :
  map MidaDecimal.new
      (map str ["1.5"; "-2.5"; ""; "-.1"; "1.2.3"; "1-2"; "0x10"]%string)
  = [Normal (MidaDecimal.mk (15 * 10 ^ 31));
     Normal (MidaDecimal.mk (-25 * 10 ^ 31));
     Normal (MidaDecimal.mk 0);
     Normal (MidaDecimal.mk (- 10 ^ 31));
     Normal (MidaDecimal.mk (12 * 10 ^ 31));
     Normal (MidaDecimal.mk (-12 * 10 ^ 32));
     Normal (MidaDecimal.mk (16 * 16 ^ 32))].
Proof. vm_compute. reflexivity. Qed.

Example new_throws_examples :
  map MidaDecimal.new
      (map str ["abc"; "1.2x"; "Infinity"; "NaN"; "1e400"; "1e5"; "--5"]%string)
  = [Throw Error; Throw Error; Throw Error; Throw Error; Throw Error;
     Throw SyntaxError; Throw SyntaxError].
Proof. vm_compute. reflexivity. Qed.

Example divide_examples :
  (one ← MidaDecimal.new (str "1");
   MidaDecimal.divide one (MidaDecimal.OfString (str "3")))
  = Normal (MidaDecimal.mk 33333333333333333333333333333333) /\
  (two ← MidaDecimal.new (str "-2");
   MidaDecimal.divide two (MidaDecimal.OfString (str "3")))
  = Normal (MidaDecimal.mk (-66666666666666666666666666666667)).
Proof. vm_compute. split; reflexivity. Qed.

End Operations.

(* ================================================================== *)
(** * Valid decimal strings *)
(* ================================================================== *)

Section ValidStrings.
Import JS.

Lemma span_spec (p : ascii -> bool) (s a b : jsstring) :
  span p s = (a, b) -> s = a ++ b /\ forallb p a = true.
Proof.
  revert a b. induction s as [|c s IH]; intros a b.
  - intros [= <- <-]. auto.
  - cbn [span]. destruct (p c) eqn:Hc.
    + destruct (span p s) as [h t]. intros [= <- <-].
      destruct (IH h t eq_refl) as [-> Hh]. cbn [forallb app]. rewrite Hc. auto.
    + intros [= <- <-]. auto.
Qed.

(** A valid decimal string is a numeral with at least one integer digit. *)
Lemma valid_decimal_string_numeral (s : jsstring) :
  valid_decimal_string s = true ->
  exists negative i f,
    s = numeral negative i f /\ all_digits i = true /\ i <> [] /\
    all_digits f = true.
Proof.
  unfold valid_decimal_string.
  set (r := match s with
            | a :: r' => if is_char "-" a then r' else s
            | [] => s
            end).
  assert (Hs : exists negative : bool, s = (if negative then str "-" else []) ++ r).
  { unfold r. destruct s as [|a s']; [exists false; reflexivity|].
    destruct (is_char "-" a) eqn:Ha; [|exists false; reflexivity].
    unfold is_char in Ha. apply Ascii.eqb_eq in Ha. subst a.
    exists true. reflexivity. }
  clearbody r. destruct Hs as [negative ->].
  destruct (span is_digit r) as [i rest] eqn:Hsp.
  apply span_spec in Hsp as [-> Hi]. intros H.
  apply andb_true_iff in H as [Hne H].
  assert (i <> []) by (destruct i; [discriminate | discriminate]).
  destruct rest as [|a f].
  - exists negative, i, []. unfold numeral. cbn [nonempty]. auto.
  - apply andb_true_iff in H as [H Hf]. apply andb_true_iff in H as [Ha Hfn].
    unfold is_char in Ha. apply Ascii.eqb_eq in Ha. subst a.
    exists negative, i, f. unfold numeral. rewrite Hfn. auto.
Qed.

(** The constructor accepts a numeral whose integer digits stay one below
    the overflow bound, and the value it builds reads back. *)
Lemma new_numeral_readable (negative : bool) (i f : jsstring) :
  all_digits i = true -> all_digits f = true ->
  decimal_value i + 1 < double_overflow ->
  decimal_value f < double_overflow ->
  exists d, MidaDecimal.new (numeral negative i f) = Normal d /\
            readable (MidaDecimal.value d).
Proof.
  intros Hi Hf Bi Bf. eexists. split.
  - apply new_numeral; try assumption. lia.
  - cbn [MidaDecimal.value]. unfold readable.
    pose proof (decimal_value_with_fraction i f Hf) as B.
    pose proof (decimal_value_bounds i Hi) as Bi'.
    destruct negative, (excess_digit_ge_5 f); nia.
Qed.

(** A valid decimal string below the bounds is accepted and reads back. *)
Lemma valid_decimal_string_round_trip (s : jsstring) :
  valid_decimal_string s = true ->
  exists negative i f,
    s = numeral negative i f /\
    (decimal_value i + 1 < double_overflow ->
     decimal_value f < double_overflow ->
     exists d, MidaDecimal.new s = Normal d /\
               MidaDecimal.new (MidaDecimal.toString d) = Normal d).
Proof.
  intros Hv.
  destruct (valid_decimal_string_numeral s Hv) as (negative & i & f & -> & Hi & _ & Hf).
  exists negative, i, f. split; [reflexivity|]. intros Bi Bf.
  destruct (new_numeral_readable negative i f Hi Hf Bi Bf) as (d & Hd & Hr).
  exists d. split; [exact Hd|].
  unfold MidaDecimal.toString. rewrite new_toString_value by exact Hr.
  destruct d; reflexivity.
Qed.

End ValidStrings.

(* ================================================================== *)
(** * The parts of an input as written *)
(* ================================================================== *)

Section RawText.
Import JS.

Lemma new_numeral_fraction_overflow (negative : bool) (i f : jsstring) :
  all_digits i = true -> all_digits f = true ->
  double_overflow <= decimal_value f ->
  MidaDecimal.new (numeral negative i f) = Throw Error.
Proof.
  intros Hi Hf Bf. unfold MidaDecimal.new.
  rewrite constructor_parts_numeral by assumption.
  unfold Number_. rewrite (Number_isFinite_digits f Hf).
  apply Z.ltb_ge in Bf. rewrite Bf. cbn [negb]. rewrite orb_true_r. reflexivity.
Qed.













(** The [toString] text of a decimal reads back exactly when its value is
    readable. *)
Lemma toString_reads_back_or_throws (d : MidaDecimal.t) :
  if readableb (MidaDecimal.value d) then round_trip d
  else MidaDecimal.new (MidaDecimal.toString d) = Throw Error.
Proof.
  unfold readableb.
  destruct (Z.ltb_spec (Z.abs (MidaDecimal.value d)) (double_overflow * 10 ^ 32)) as [H | H].
  - assert (E : MidaDecimal.new (MidaDecimal.toString d) = Normal d).
    { unfold MidaDecimal.toString. rewrite new_toString_value by exact H.
      destruct d; reflexivity. }
    split; [exact E|]. rewrite E. cbn [mbind completion_bind bind].
    rewrite equals_readable by exact H. rewrite Z.eqb_refl. reflexivity.
  - apply new_toString_value_unreadable. unfold readable. lia.
Qed.

End RawText.

(* ================================================================== *)
(** * The claims *)
(* ================================================================== *)

Section Claims.
Import JS.

(** C1 (defect in the code).  [min] and [max] read [operands[0]] in every
    round of their loop, so they return their first argument: over the
    decimals 5, 1, 3 [min] is 5, which does not equal 1, and over 1, 5, 3
    [max] is 1. *)
Theorem min_max_return_first_operand :
  let d1 := MidaDecimal.mk (1 * 10 ^ 32) in
  let d3 := MidaDecimal.mk (3 * 10 ^ 32) in
  let d5 := MidaDecimal.mk (5 * 10 ^ 32) in
  MidaDecimal.new (str "1") = Normal d1 /\
  MidaDecimal.new (str "3") = Normal d3 /\
  MidaDecimal.new (str "5") = Normal d5 /\
  MidaDecimal.min [d5; d1; d3] = Normal (Some d5) /\
  MidaDecimal.equals d5 (MidaDecimal.OfDecimal d1) = Normal false /\
  MidaDecimal.max [d1; d5; d3] = Normal (Some d1).
Proof. vm_compute. repeat split; reflexivity. Qed.

(** C2 (defect in the code).  The constructor adds the rounding increment
    to the signed integer: ["-1." ++ 32 zeros ++ "5"] becomes
    [-10^32 + 1], one unit closer to zero than the truncated magnitude,
    where the positive input becomes [10^32 + 1]. *)
Theorem new_rounds_negative_input_towards_zero :
  MidaDecimal.new (str "-1.000000000000000000000000000000005")
  = Normal (MidaDecimal.mk (- 10 ^ 32 + 1)) /\
  MidaDecimal.new (str "1.000000000000000000000000000000005")
  = Normal (MidaDecimal.mk (10 ^ 32 + 1)).
Proof. vm_compute. split; reflexivity. Qed.

(** C3.  For a non-zero divisor the bigint expression of [#divideRound],
    the truncating quotient plus [dividend * 2 / divisor % 2], is the
    truncating quotient moved one unit away from zero (in the direction of
    the sign of the exact quotient) exactly when the discarded fraction is
    one half or more, for every combination of signs.  [#divideRound]
    returns the decimal of that rounded quotient (when its text reads
    back; it throws [Error] otherwise), and [multiply] and [divide] on a
    readable decimal operand are [#divideRound] of the product by [10^32]
    and of the [10^32]-fold dividend by the operand. *)
Theorem divideRound_rounds_half_away_from_zero (dividend divisor : Z) :
  divisor <> 0 ->
  MidaDecimal.divideRound_value dividend divisor =
    Normal (if Z.abs divisor <=? 2 * Z.abs (Z.rem dividend divisor)
            then Z.quot dividend divisor + Z.sgn dividend * Z.sgn divisor
            else Z.quot dividend divisor) /\
  MidaDecimal.divideRound dividend divisor =
    (let r := if Z.abs divisor <=? 2 * Z.abs (Z.rem dividend divisor)
              then Z.quot dividend divisor + Z.sgn dividend * Z.sgn divisor
              else Z.quot dividend divisor in
     if Z.abs r <? double_overflow * 10 ^ 32
     then Normal (MidaDecimal.mk r) else Throw Error) /\
  (forall a b : MidaDecimal.t,
     readable (MidaDecimal.value b) ->
     MidaDecimal.multiply a (MidaDecimal.OfDecimal b) =
       MidaDecimal.divideRound (MidaDecimal.value a * MidaDecimal.value b) (10 ^ 32) /\
     MidaDecimal.divide a (MidaDecimal.OfDecimal b) =
       MidaDecimal.divideRound (MidaDecimal.value a * 10 ^ 32) (MidaDecimal.value b)).
Proof.
  intros Hd.
  assert (V : MidaDecimal.divideRound_value dividend divisor =
              Normal (if Z.abs divisor <=? 2 * Z.abs (Z.rem dividend divisor)
                      then Z.quot dividend divisor + Z.sgn dividend * Z.sgn divisor
                      else Z.quot dividend divisor)).
  { rewrite divideRound_value_nonzero by assumption. f_equal.
    rewrite correction_signed by assumption.
    destruct (Z.abs divisor <=? 2 * Z.abs (Z.rem dividend divisor)); lia. }
  split; [exact V|]. split.
  - unfold MidaDecimal.divideRound. rewrite V. cbn [mbind completion_bind bind].
    cbv zeta.
    set (r := if Z.abs divisor <=? 2 * Z.abs (Z.rem dividend divisor)
              then Z.quot dividend divisor + Z.sgn dividend * Z.sgn divisor
              else Z.quot dividend divisor).
    destruct (Z.ltb_spec (Z.abs r) (double_overflow * 10 ^ 32)) as [H | H].
    + apply decimal_toString_value. exact H.
    + apply new_toString_value_unreadable. unfold readable. lia.
  - intros a b Hb. unfold MidaDecimal.multiply, MidaDecimal.divide.
    rewrite decimal_OfDecimal by exact Hb. cbn [mbind completion_bind bind].
    rewrite shift_eq. split; reflexivity.
Qed.

Lemma divideRound_rounds_half_away_from_zero_witness :
  (2 <> 0 /\ MidaDecimal.divideRound 7 2 = Normal (MidaDecimal.mk 4)) /\
  (-2 <> 0 /\ MidaDecimal.divideRound 7 (-2) = Normal (MidaDecimal.mk (-4))) /\
  (2 <> 0 /\ MidaDecimal.divideRound (-7) 2 = Normal (MidaDecimal.mk (-4))) /\
  (-2 <> 0 /\ MidaDecimal.divideRound (-7) (-2) = Normal (MidaDecimal.mk 4)) /\
  (3 <> 0 /\ MidaDecimal.divideRound 7 3 = Normal (MidaDecimal.mk 2)).
Proof.
  assert (P : 2 <> 0) by discriminate.
  assert (N : -2 <> 0) by discriminate.
  assert (T : 3 <> 0) by discriminate.
  split; [|split; [|split; [|split]]]; (split; [assumption|]).
  - exact (proj1 (proj2 (divideRound_rounds_half_away_from_zero 7 2 P))).
  - exact (proj1 (proj2 (divideRound_rounds_half_away_from_zero 7 (-2) N))).
  - exact (proj1 (proj2 (divideRound_rounds_half_away_from_zero (-7) 2 P))).
  - exact (proj1 (proj2 (divideRound_rounds_half_away_from_zero (-7) (-2) N))).
  - exact (proj1 (proj2 (divideRound_rounds_half_away_from_zero 7 3 T))).
Defined.

(** C4, as amended.  A valid decimal string is a numeral: an optional
    minus sign, integer digits [i] and fractional digits [f].  When [i]
    or [f], read as an integer, is [2^1024 - 2^970] or more, the
    constructor throws [Error] on the string.  Otherwise the constructor
    accepts it, and on the [toString] output of the decimal [d] it builds
    the constructor returns [d] again, equal by [equals], when the
    magnitude of [d] is below [(2^1024 - 2^970) * 10^32], which it is
    whenever [i] stays below [2^1024 - 2^970 - 1]; when the magnitude of
    [d] is not below that bound the constructor throws [Error] on the
    [toString] output.  The same holds for the [toString] output of any
    decimal [d0] whatsoever: it is read back as [d0] when the magnitude
    of [d0] is below the bound, and rejected with [Error] otherwise. *)
Theorem toString_round_trip (s : jsstring) (d0 : MidaDecimal.t) :
  valid_decimal_string s = true ->
  (exists (negative : bool) (i f : jsstring),
     s = numeral negative i f /\ all_digits i = true /\ all_digits f = true /\
     if (decimal_value i <? double_overflow) && (decimal_value f <? double_overflow)
     then exists d : MidaDecimal.t,
            MidaDecimal.new s = Normal d /\
            (decimal_value i + 1 < double_overflow ->
             readable (MidaDecimal.value d)) /\
            if readableb (MidaDecimal.value d) then round_trip d
            else MidaDecimal.new (MidaDecimal.toString d) = Throw Error
     else MidaDecimal.new s = Throw Error) /\
  (if readableb (MidaDecimal.value d0) then round_trip d0
   else MidaDecimal.new (MidaDecimal.toString d0) = Throw Error).
Proof.
  intros Hv. split; [|apply toString_reads_back_or_throws].
  destruct (valid_decimal_string_numeral s Hv) as (negative & i & f & E & Hi & _ & Hf).
  exists negative, i, f. split; [exact E|]. split; [exact Hi|]. split; [exact Hf|].
  destruct (Z.ltb_spec (decimal_value i) double_overflow) as [Bi | Bi];
    [destruct (Z.ltb_spec (decimal_value f) double_overflow) as [Bf | Bf]|];
    cbn [andb].
  - eexists. split; [rewrite E; apply new_numeral; assumption|].
    split; [|apply toString_reads_back_or_throws].
    intros Bi'.
    destruct (new_numeral_readable negative i f Hi Hf Bi' Bf) as (d & Hd & Hr).
    rewrite new_numeral in Hd by assumption. injection Hd as <-. exact Hr.
  - rewrite E. apply new_numeral_fraction_overflow; assumption.
  - rewrite E. apply new_numeral_overflow; assumption.
Qed.

Lemma toString_round_trip_witness :
  valid_decimal_string (str "-2.50") = true /\
  (exists d : MidaDecimal.t,
     MidaDecimal.new (str "-2.50") = Normal d /\ round_trip d) /\
  round_trip (MidaDecimal.mk 5).
Proof.
  assert (H : valid_decimal_string (str "-2.50") = true) by reflexivity.
  assert (N : MidaDecimal.new (str "-2.50")
              = Normal (MidaDecimal.mk (-25 * 10 ^ 31))) by (vm_compute; reflexivity).
  assert (R1 : readableb (-25 * 10 ^ 31) = true) by (vm_compute; reflexivity).
  assert (R2 : readableb 5 = true) by (vm_compute; reflexivity).
  destruct (toString_round_trip (str "-2.50") (MidaDecimal.mk 5) H)
    as [(negative & i & f & _ & _ & _ & C) D].
  split; [exact H|]. split.
  - destruct ((decimal_value i <? double_overflow)
              && (decimal_value f <? double_overflow)).
    + destruct C as (d & Hd & _ & R). exists d. split; [exact Hd|].
      rewrite N in Hd. injection Hd as Hd. subst d.
      cbn [MidaDecimal.value] in R. rewrite R1 in R. exact R.
    + rewrite N in C. discriminate C.
  - cbn [MidaDecimal.value] in D. rewrite R2 in D. exact D.
Defined.

(** C4 as stated fails, in two ways.  [carry_input] is a valid decimal
    string that the constructor accepts, rounding it up to
    [(2^1024 - 2^970) * 10^32]; the [toString] output of that decimal is
    rejected.  [long_fraction], a zero, a dot and 400 threes, is a valid
    decimal string that the constructor rejects, its fractional digits
    read as an integer being above [2^1024 - 2^970]. *)
Lemma toString_round_trip_fails_after_carry :
  let d := MidaDecimal.mk (double_overflow * 10 ^ 32) in
  (valid_decimal_string carry_input = true /\
   MidaDecimal.new carry_input = Normal d /\
   MidaDecimal.new (MidaDecimal.toString d) = Throw Error) /\
  (valid_decimal_string long_fraction = true /\
   MidaDecimal.new long_fraction = Throw Error).
Proof.
  split.
  - split; [vm_compute; reflexivity|]. split; [exact carry_input_value|].
    apply new_toString_value_unreadable, carry_value_unreadable.
  - vm_compute. split; reflexivity.
Qed.

(** C5, as amended.  For decimals [a] and [b] such that [a], [b] and
    [a + b] are readable, [a.add(b).subtract(b).equals(a)] is [true]; and
    0.1 plus 0.2 equals 0.3. *)
Theorem add_subtract_cancels (a b : MidaDecimal.t) :
  readable (MidaDecimal.value a) ->
  readable (MidaDecimal.value b) ->
  readable (MidaDecimal.value a + MidaDecimal.value b) ->
  (sum ← MidaDecimal.add a (MidaDecimal.OfDecimal b);
   back ← MidaDecimal.subtract sum (MidaDecimal.OfDecimal b);
   MidaDecimal.equals back (MidaDecimal.OfDecimal a)) = Normal true
  /\
  (x ← MidaDecimal.new (str "0.1");
   y ← MidaDecimal.new (str "0.2");
   z ← MidaDecimal.new (str "0.3");
   sum ← MidaDecimal.add x (MidaDecimal.OfDecimal y);
   MidaDecimal.equals sum (MidaDecimal.OfDecimal z)) = Normal true.
Proof.
  intros Ha Hb Hs. split; [|vm_compute; reflexivity].
  rewrite add_readable by assumption. cbn [mbind completion_bind bind].
  rewrite subtract_readable; cbn [MidaDecimal.value];
    replace (MidaDecimal.value a + MidaDecimal.value b - MidaDecimal.value b)
      with (MidaDecimal.value a) by ring; try assumption.
  cbn [mbind completion_bind bind].
  rewrite equals_readable by assumption. cbn [MidaDecimal.value].
  rewrite Z.eqb_refl. reflexivity.
Qed.

Lemma add_subtract_cancels_witness :
  let a := MidaDecimal.mk (15 * 10 ^ 31) in
  let b := MidaDecimal.mk (-7 * 10 ^ 30) in
  readable (MidaDecimal.value a) /\
  readable (MidaDecimal.value b) /\
  readable (MidaDecimal.value a + MidaDecimal.value b) /\
  (sum ← MidaDecimal.add a (MidaDecimal.OfDecimal b);
   back ← MidaDecimal.subtract sum (MidaDecimal.OfDecimal b);
   MidaDecimal.equals back (MidaDecimal.OfDecimal a)) = Normal true.
Proof.
  assert (Ha : readable (15 * 10 ^ 31)) by (unfold readable; vm_compute; reflexivity).
  assert (Hb : readable (-7 * 10 ^ 30)) by (unfold readable; vm_compute; reflexivity).
  assert (Hs : readable (15 * 10 ^ 31 + -7 * 10 ^ 30))
    by (unfold readable; vm_compute; reflexivity).
  split; [exact Ha | split; [exact Hb | split; [exact Hs|]]].
  exact (proj1 (add_subtract_cancels (MidaDecimal.mk (15 * 10 ^ 31))
                  (MidaDecimal.mk (-7 * 10 ^ 30)) Ha Hb Hs)).
Defined.

(** C5 as stated fails: [10^308] is a decimal, and adding it to itself
    throws, because the sum no longer passes the finiteness check of the
    constructor. *)
Lemma add_throws_on_large_sum :
  let a := MidaDecimal.mk (10 ^ 340) in
  MidaDecimal.new ten_to_308 = Normal a /\
  MidaDecimal.add a (MidaDecimal.OfDecimal a) = Throw Error.
Proof. vm_compute. split; reflexivity. Qed.




(** C7.  Dividing any decimal by a decimal equal to zero, or by the number
    0, throws the [RangeError] of the bigint division; no decimal is
    returned. *)
Theorem divide_by_zero_throws (a b : MidaDecimal.t) :
  MidaDecimal.value b = 0 ->
  MidaDecimal.divide a (MidaDecimal.OfDecimal b) = Throw RangeError /\
  MidaDecimal.divide a MidaDecimal.number_0 = Throw RangeError.
Proof.
  intros Hb. destruct b as [vb]. cbn [MidaDecimal.value] in Hb. subst vb.
  unfold MidaDecimal.divide.
  rewrite decimal_OfDecimal by exact readable_0. rewrite decimal_number_0.
  split; reflexivity.
Qed.

Lemma divide_by_zero_throws_witness :
  MidaDecimal.value (MidaDecimal.mk 0) = 0 /\
  MidaDecimal.divide (MidaDecimal.mk (10 ^ 32)) (MidaDecimal.OfDecimal (MidaDecimal.mk 0))
  = Throw RangeError.
Proof.
  split; [reflexivity|].
  exact (proj1 (divide_by_zero_throws (MidaDecimal.mk (10 ^ 32)) (MidaDecimal.mk 0) eq_refl)).
Defined.

(** C8.  For every decimal [x] (an instance built by the constructor),
    [abs] returns [x] itself when [x] is not below zero, and otherwise the
    result of [x.multiply(-1)], which is the negated decimal. *)
Theorem abs_negates_below_zero (x : MidaDecimal.t) :
  constructed x ->
  (MidaDecimal.value x < 0 ->
   MidaDecimal.abs x = MidaDecimal.multiply x MidaDecimal.number_minus_1 /\
   MidaDecimal.abs x = Normal (MidaDecimal.mk (- MidaDecimal.value x))) /\
  (0 <= MidaDecimal.value x -> MidaDecimal.abs x = Normal x).
Proof.
  intros [s Hs]. unfold MidaDecimal.abs, MidaDecimal.lessThan.
  rewrite decimal_number_0. cbn [mbind completion_bind bind MidaDecimal.value].
  split; intros H.
  - destruct (Z.ltb_spec (MidaDecimal.value x) 0); [|lia].
    split; [reflexivity|].
    apply multiply_minus_1. eapply new_negative_readable; eassumption.
  - destruct (Z.ltb_spec (MidaDecimal.value x) 0); [lia | reflexivity].
Qed.

Lemma abs_negates_below_zero_witness :
  let x := MidaDecimal.mk (-25 * 10 ^ 31) in
  let y := MidaDecimal.mk (25 * 10 ^ 31) in
  MidaDecimal.new (str "-2.5") = Normal x /\
  MidaDecimal.new (str "2.5") = Normal y /\
  MidaDecimal.abs x = Normal y /\
  MidaDecimal.abs y = Normal y.
Proof.
  assert (Hx : MidaDecimal.new (str "-2.5") = Normal (MidaDecimal.mk (-25 * 10 ^ 31)))
    by (vm_compute; reflexivity).
  assert (Hy : MidaDecimal.new (str "2.5") = Normal (MidaDecimal.mk (25 * 10 ^ 31)))
    by (vm_compute; reflexivity).
  split; [exact Hx | split; [exact Hy | split]].
  - exact (proj2 (proj1 (abs_negates_below_zero _ (ex_intro _ _ Hx)) eq_refl)).
  - refine (proj2 (abs_negates_below_zero _ (ex_intro _ _ Hy)) _).
    vm_compute. discriminate.
Defined.

(** C10, as amended.  For decimals [a] and [b] with [b] readable, the
    three comparisons return, exactly one of [lessThan], [equals] and
    [greaterThan] is [true], and [greaterThanOrEqual] and
    [lessThanOrEqual] are the disjunctions of the strict comparison with
    [equals]. *)
Theorem comparison_trichotomy (a b : MidaDecimal.t) :
  readable (MidaDecimal.value b) ->
  exists lt eq gt : bool,
    MidaDecimal.lessThan a (MidaDecimal.OfDecimal b) = Normal lt /\
    MidaDecimal.equals a (MidaDecimal.OfDecimal b) = Normal eq /\
    MidaDecimal.greaterThan a (MidaDecimal.OfDecimal b) = Normal gt /\
    ((lt = true /\ eq = false /\ gt = false) \/
     (lt = false /\ eq = true /\ gt = false) \/
     (lt = false /\ eq = false /\ gt = true)) /\
    MidaDecimal.greaterThanOrEqual a (MidaDecimal.OfDecimal b) = Normal (gt || eq) /\
    MidaDecimal.lessThanOrEqual a (MidaDecimal.OfDecimal b) = Normal (lt || eq).
Proof.
  intros H.
  exists (MidaDecimal.value a <? MidaDecimal.value b),
         (MidaDecimal.value a =? MidaDecimal.value b),
         (MidaDecimal.value a >? MidaDecimal.value b).
  unfold MidaDecimal.greaterThanOrEqual, MidaDecimal.lessThanOrEqual.
  rewrite lessThan_readable, equals_readable, greaterThan_readable by exact H.
  cbn [mbind completion_bind bind].
  split; [reflexivity | split; [reflexivity | split; [reflexivity|]]].
  rewrite Z.gtb_ltb.
  destruct (Z.ltb_spec (MidaDecimal.value a) (MidaDecimal.value b)),
           (Z.eqb_spec (MidaDecimal.value a) (MidaDecimal.value b)),
           (Z.ltb_spec (MidaDecimal.value b) (MidaDecimal.value a));
    try lia; cbn; auto 10.
Qed.

Lemma comparison_trichotomy_witness :
  let a := MidaDecimal.mk (10 ^ 32) in
  let b := MidaDecimal.mk (3 * 10 ^ 32) in
  readable (MidaDecimal.value b) /\
  exists lt eq gt : bool,
    MidaDecimal.lessThan a (MidaDecimal.OfDecimal b) = Normal lt /\
    MidaDecimal.equals a (MidaDecimal.OfDecimal b) = Normal eq /\
    MidaDecimal.greaterThan a (MidaDecimal.OfDecimal b) = Normal gt /\
    ((lt = true /\ eq = false /\ gt = false) \/
     (lt = false /\ eq = true /\ gt = false) \/
     (lt = false /\ eq = false /\ gt = true)) /\
    MidaDecimal.greaterThanOrEqual a (MidaDecimal.OfDecimal b) = Normal (gt || eq) /\
    MidaDecimal.lessThanOrEqual a (MidaDecimal.OfDecimal b) = Normal (lt || eq).
Proof.
  assert (Hb : readable (3 * 10 ^ 32)) by (unfold readable; vm_compute; reflexivity).
  split; [exact Hb|].
  exact (comparison_trichotomy (MidaDecimal.mk (10 ^ 32))
           (MidaDecimal.mk (3 * 10 ^ 32)) Hb).
Defined.

(** C10 as stated fails: the decimal built from [carry_input] is not
    readable, and every comparison against it throws. *)
Lemma comparisons_throw_on_unreadable_operand :
  let a := MidaDecimal.mk 0 in
  let b := MidaDecimal.mk (double_overflow * 10 ^ 32) in
  MidaDecimal.new carry_input = Normal b /\
  MidaDecimal.lessThan a (MidaDecimal.OfDecimal b) = Throw Error /\
  MidaDecimal.equals a (MidaDecimal.OfDecimal b) = Throw Error /\
  MidaDecimal.greaterThan a (MidaDecimal.OfDecimal b) = Throw Error.
Proof.
  split; [exact carry_input_value|].
  unfold MidaDecimal.lessThan, MidaDecimal.equals, MidaDecimal.greaterThan.
  rewrite decimal_OfDecimal_unreadable by exact carry_value_unreadable.
  repeat split; reflexivity.
Qed.

End Claims.

(* ================================================================== *)
(** * The emitter: registrations and dispatch *)
(* ================================================================== *)

Section EmitterFacts.
Context {payload listener : Type}.
Import MidaEmitter.
Implicit Types (em : @t listener) (l : list (@registration listener)).
Implicit Types (c : @call payload listener) (i j : uuid) (type : string).

Local Open Scope nat_scope.

Lemma occurrences_app i l1 l2 :
  occurrences i (l1 ++ l2) = occurrences i l1 + occurrences i l2.
Proof. unfold occurrences. rewrite filter_app, length_app. reflexivity. Qed.

Lemma occurrences_cons i (r : registration) l :
  occurrences i (r :: l)
  = (if decide (reg_id r = i) then 1 else 0) + occurrences i l.
Proof.
  unfold occurrences. rewrite filter_cons.
  destruct (decide (reg_id r = i)); reflexivity.
Qed.

Lemma occurrences_filter_le i (P : registration → Prop)
    `{∀ r, Decision (P r)} l :
  occurrences i (filter P l) ≤ occurrences i l.
Proof.
  induction l as [|r l IH]; [reflexivity|].
  rewrite filter_cons. destruct (decide (P r)).
  - rewrite !occurrences_cons. lia.
  - rewrite occurrences_cons. lia.
Qed.

Lemma occurrences_filter_keep i (P : registration → Prop)
    `{∀ r, Decision (P r)} l :
  (∀ r, r ∈ l → reg_id r = i → P r) →
  occurrences i (filter P l) = occurrences i l.
Proof.
  induction l as [|r l IH]; intros Hk; [reflexivity|].
  rewrite filter_cons. destruct (decide (P r)) as [|Hn].
  - rewrite !occurrences_cons, IH; [reflexivity|].
    intros r' Hr'. apply Hk. right. exact Hr'.
  - rewrite occurrences_cons, IH.
    + destruct (decide (reg_id r = i)) as [E|]; [|reflexivity].
      exfalso. apply Hn, Hk; [left | exact E].
    + intros r' Hr'. apply Hk. right. exact Hr'.
Qed.

Lemma occurrences_fresh i l :
  (∀ r, r ∈ l → reg_id r < i) → occurrences i l = 0.
Proof.
  induction l as [|r l IH]; intros Hl; [reflexivity|].
  rewrite occurrences_cons, IH.
  - destruct (decide (reg_id r = i)) as [E|]; [|reflexivity].
    specialize (Hl r ltac:(left)). lia.
  - intros r' Hr'. apply Hl. right. exact Hr'.
Qed.

Lemma occurrences_removed i l :
  occurrences i (filter (λ r, reg_id r ≠ i) l) = 0.
Proof.
  induction l as [|r l IH]; [reflexivity|].
  rewrite filter_cons. destruct (decide (reg_id r ≠ i)) as [Hn|]; [|exact IH].
  rewrite occurrences_cons, IH. destruct (decide (reg_id r = i)); [contradiction | reflexivity].
Qed.

(** ** The bucket of a type after each operation *)

Lemma bucket_register type type' (cb : listener) (once : bool) em :
  bucket type (register type' cb once em).2
  = if decide (type' = type)
    then bucket type em
         ++ [{| reg_id := issued em; reg_callback := cb; reg_oneShot := once |}]
    else bucket type em.
Proof.
  unfold bucket, register. cbn [snd listenersByType].
  rewrite lookup_insert. destruct (decide (type' = type)) as [->|]; reflexivity.
Qed.

Lemma bucket_removeEventListener type j em :
  bucket type (removeEventListener j em)
  = filter (λ r, reg_id r ≠ j) (bucket type em).
Proof.
  unfold bucket, removeEventListener. cbn [listenersByType].
  rewrite lookup_fmap. destruct (listenersByType em !! type); reflexivity.
Qed.

Lemma bucket_notifyListeners type type' (data : option payload) (now : Z) em :
  bucket type (notifyListeners type' data now em).1
  = if decide (type' = type)
    then filter (λ r, reg_oneShot r = false) (bucket type em)
    else bucket type em.
Proof.
  unfold bucket, notifyListeners. cbn [fst listenersByType].
  rewrite lookup_alter. destruct (decide (type' = type)) as [->|]; [|reflexivity].
  destruct (listenersByType em !! type); reflexivity.
Qed.

Lemma invocations_notifyListeners i type (data : option payload) (now : Z) em :
  invocations i (notifyListeners type data now em).2
  = occurrences i (bucket type em).
Proof.
  unfold invocations, notifyListeners, occurrences. cbn [snd].
  induction (bucket type em) as [|r l IH]; [reflexivity|].
  rewrite fmap_cons, !filter_cons. cbn [fst].
  destruct (decide (reg_id r = i)); cbn [length]; rewrite IH; reflexivity.
Qed.

Lemma issued_perform c em : issued em ≤ issued (perform c em).
Proof. destruct c; cbn; lia. Qed.

(** ** Invariants of the registration table *)

Lemma well_formed_empty : well_formed (@empty listener).
Proof. intros type r Hr. unfold bucket in Hr. cbn in Hr. rewrite lookup_empty in Hr. inversion Hr. Qed.

Lemma well_formed_register type (cb : listener) (once : bool) em :
  well_formed em → well_formed (register type cb once em).2.
Proof.
  intros Hwf type' r. rewrite bucket_register.
  change (issued (register type cb once em).2) with (S (issued em)).
  destruct (decide (type = type')).
  - rewrite elem_of_app, list_elem_of_singleton. intros [Hr | ->].
    + specialize (Hwf _ _ Hr). lia.
    + cbn. lia.
  - intros Hr. specialize (Hwf _ _ Hr). lia.
Qed.

Lemma well_formed_perform c em : well_formed em → well_formed (perform c em).
Proof.
  intros Hwf. destruct c as [type cb | type cb persistent | j | type data now].
  - apply well_formed_register, Hwf.
  - apply well_formed_register, Hwf.
  - intros type r. cbn [perform]. rewrite bucket_removeEventListener.
    intros Hr. apply list_elem_of_filter in Hr as [_ Hr]. exact (Hwf _ _ Hr).
  - intros type' r. cbn [perform]. rewrite bucket_notifyListeners.
    change (issued (notifyListeners type data now em).1) with (issued em).
    destruct (decide (type = type')); [|apply Hwf].
    intros Hr. apply list_elem_of_filter in Hr as [_ Hr]. exact (Hwf _ _ Hr).
Qed.

Lemma well_formed_perform_all (cs : list (@call payload listener)) em :
  well_formed em → well_formed (perform_all cs em).
Proof.
  revert em. induction cs as [|c cs IH]; intros em Hwf; [exact Hwf|].
  apply IH, well_formed_perform, Hwf.
Qed.

(** A listener just added to a well-formed emitter is registered once. *)
Lemma listening_addEventListener type (cb : listener) em :
  well_formed em →
  listening (addEventListener type cb em).1 type (addEventListener type cb em).2.
Proof.
  intros Hwf. unfold addEventListener, listening.
  change (register type cb false em).1 with (issued em).
  rewrite bucket_register. rewrite decide_True by reflexivity.
  split; [cbn; lia|]. split.
  - rewrite occurrences_app, (occurrences_fresh _ _ (Hwf type)).
    rewrite occurrences_cons. cbn [reg_id]. rewrite decide_True by reflexivity.
    reflexivity.
  - intros r. rewrite elem_of_app, list_elem_of_singleton. intros [Hr | ->] E.
    + specialize (Hwf _ _ Hr). lia.
    + reflexivity.
Qed.

Lemma listening_perform i type c em :
  removes i c = false → listening i type em → listening i type (perform c em).
Proof.
  intros Hc (Hi & Hocc & Hpers).
  pose proof (issued_perform c em) as Hmono.
  split; [lia|].
  assert (Hreg : ∀ type' (cb : listener) (once : bool),
             occurrences i (bucket type (register type' cb once em).2) = 1 ∧
             ∀ r, r ∈ bucket type (register type' cb once em).2 →
                  reg_id r = i → reg_oneShot r = false).
  { intros type' cb once. rewrite bucket_register.
    destruct (decide (type' = type)); [|auto]. split.
    - rewrite occurrences_app, Hocc, occurrences_cons. cbn [reg_id].
      rewrite decide_False by lia. reflexivity.
    - intros r. rewrite elem_of_app, list_elem_of_singleton. intros [Hr | ->] E.
      + exact (Hpers r Hr E).
      + cbn in E. lia. }
  destruct c as [type' cb | type' cb persistent | j | type' data now];
    cbn [perform].
  - apply Hreg.
  - apply Hreg.
  - cbn [removes] in Hc. apply bool_decide_eq_false in Hc.
    rewrite bucket_removeEventListener. split.
    + rewrite occurrences_filter_keep; [exact Hocc|]. intros r _ E. congruence.
    + intros r Hr. apply list_elem_of_filter in Hr as [_ Hr]. exact (Hpers r Hr).
  - rewrite bucket_notifyListeners.
    destruct (decide (type' = type)); [|auto]. split.
    + rewrite occurrences_filter_keep; [exact Hocc | exact Hpers].
    + intros r Hr. apply list_elem_of_filter in Hr as [_ Hr]. exact (Hpers r Hr).
Qed.

Lemma listening_perform_all i type (cs : list (@call payload listener)) em :
  forallb (λ c, negb (removes i c)) cs = true →
  listening i type em → listening i type (perform_all cs em).
Proof.
  revert em. induction cs as [|c cs IH]; intros em Hcs Hl; [exact Hl|].
  cbn [forallb] in Hcs. apply andb_true_iff in Hcs as [Hc Hcs].
  apply IH; [exact Hcs|]. apply listening_perform; [|exact Hl].
  apply negb_true_iff, Hc.
Qed.

Lemma issued_perform_all i (cs : list (@call payload listener)) em :
  i < issued em → i < issued (perform_all cs em).
Proof.
  revert em. induction cs as [|c cs IH]; intros em Hi; [exact Hi|].
  apply IH. pose proof (issued_perform c em). cbn. lia.
Qed.

Lemma absent_removeEventListener i em :
  i < issued em → absent i (removeEventListener i em).
Proof.
  intros Hi. split; [exact Hi|]. intros type.
  rewrite bucket_removeEventListener. apply occurrences_removed.
Qed.

Lemma absent_perform i c em : absent i em → absent i (perform c em).
Proof.
  intros [Hi Habs]. pose proof (issued_perform c em) as Hmono.
  split; [lia|]. intros type.
  assert (Hreg : ∀ type' (cb : listener) (once : bool),
             occurrences i (bucket type (register type' cb once em).2) = 0).
  { intros type' cb once. rewrite bucket_register.
    destruct (decide (type' = type)); [|apply Habs].
    rewrite occurrences_app, Habs, occurrences_cons. cbn [reg_id].
    rewrite decide_False by lia. reflexivity. }
  destruct c as [type' cb | type' cb persistent | j | type' data now];
    cbn [perform].
  - apply Hreg.
  - apply Hreg.
  - rewrite bucket_removeEventListener.
    pose proof (occurrences_filter_le i (λ r, reg_id r ≠ j) (bucket type em)).
    specialize (Habs type). lia.
  - rewrite bucket_notifyListeners. destruct (decide (type' = type)); [|apply Habs].
    pose proof (occurrences_filter_le i (λ r, reg_oneShot r = false) (bucket type em)).
    specialize (Habs type). lia.
Qed.

Lemma absent_perform_all i (cs : list (@call payload listener)) em :
  absent i em → absent i (perform_all cs em).
Proof.
  revert em. induction cs as [|c cs IH]; intros em Ha; [exact Ha|].
  apply IH, absent_perform, Ha.
Qed.

End EmitterFacts.

(* ================================================================== *)
(** * The claim on the emitter *)
(* ================================================================== *)

Section EmitterClaims.
Context {payload listener : Type}.
Import MidaEmitter.

Local Open Scope nat_scope.

(** C9.  Take any emitter (the result of any calls on a new one) and add a
    listener for [type]; [i] is the id returned.  As long as [i] has not
    been removed, whatever other calls are made, a [notifyListeners] for
    [type] invokes the listener exactly once.  Once
    [removeEventListener(i)] has been called, whatever calls follow, no
    [notifyListeners] invokes it. *)
Theorem removed_listener_is_no_longer_invoked
    (history before earlier later : list (@call payload listener))
    (type type' : string) (cb : listener)
    (data data' : option payload) (now now' : Z) :
  let em0 := perform_all history empty in
  let i := (addEventListener type cb em0).1 in
  let em1 := (addEventListener type cb em0).2 in
  forallb (λ c, negb (removes i c)) before = true →
  invocations i (notifyListeners type data now (perform_all before em1)).2 = 1
  ∧ invocations i
      (notifyListeners type' data' now'
         (perform_all later
            (removeEventListener i (perform_all earlier em1)))).2 = 0.
Proof.
  intros em0 i em1 Hbefore.
  assert (Hwf : well_formed em0)
    by apply well_formed_perform_all, well_formed_empty.
  pose proof (listening_addEventListener type cb em0 Hwf) as Hl.
  fold i em1 in Hl. split.
  - rewrite invocations_notifyListeners.
    apply (listening_perform_all i type before em1 Hbefore Hl).
  - rewrite invocations_notifyListeners.
    apply (absent_perform_all (payload:=payload)), absent_removeEventListener.
    apply (issued_perform_all (payload:=payload)). apply Hl.
Qed.

End EmitterClaims.

Section EmitterTest.
Import MidaEmitter.
Local Open Scope nat_scope.

(** The scenario of the test: one listener, a dispatch, the removal, and
    another dispatch. *)
Lemma removed_listener_is_no_longer_invoked_witness :
  let em0 : @t unit := perform_all (payload:=unit) [] empty in
  let i := (addEventListener "event" tt em0).1 in
  let em1 := (addEventListener "event" tt em0).2 in
  let first := NotifyListeners (payload:=unit) "event" None 0%Z in
  forallb (λ c, negb (removes i c)) [first] = true
  ∧ invocations i (notifyListeners (payload:=unit) "event" None 1%Z
                     (perform_all [first] em1)).2 = 1
  ∧ invocations i (notifyListeners (payload:=unit) "event" None 2%Z
                     (perform_all (payload:=unit) []
                        (removeEventListener i (perform_all [first] em1)))).2 = 0.
Proof.
  cbv zeta. split; [reflexivity|].
  exact (removed_listener_is_no_longer_invoked (payload:=unit) (listener:=unit)
           [] [NotifyListeners "event" None 0%Z]
           [NotifyListeners "event" None 0%Z] []
           "event" "event" tt None None 1%Z 2%Z eq_refl).
Defined.

End EmitterTest.

(* ================================================================== *)
(** * The text written by [#toString] *)
(* ================================================================== *)

Section CanonicalText.
Import JS.

Lemma replace_dot_zeros_end_empty (s : jsstring) :
  all_digits s = true -> replace_dot_zeros_end s = [] -> all_zeros s = true.
Proof.
  intros Hs E. destruct (replace_dot_zeros_end_digits s Hs) as [_ H].
  rewrite E in H. cbn [app] in H. rewrite H. apply all_zeros_repeat.
Qed.

Lemma replace_dot_zeros_end_last (s : jsstring) :
  all_digits s = true -> last (replace_dot_zeros_end s) <> Some "0"%char.
Proof.
  unfold all_digits. induction s as [|c s IH]; [discriminate|].
  cbn [forallb]. intros H. apply andb_true_iff in H as [Hc Hs].
  cbn [replace_dot_zeros_end].
  rewrite (is_digit_not_char "." c eq_refl Hc). cbn [andb orb].
  destruct (is_char "0" c && all_zeros s) eqn:Hz; [discriminate|].
  destruct (replace_dot_zeros_end s) as [|d r] eqn:E.
  - cbn. intros [= ->].
    rewrite (replace_dot_zeros_end_empty s Hs E) in Hz. discriminate.
  - change (last (c :: d :: r)) with (last (d :: r)). exact (IH Hs).
Qed.

Lemma last_app_nonempty (x y : jsstring) : y <> [] -> last (x ++ y) = last y.
Proof.
  intros Hy. destruct (exists_last Hy) as (y' & c & ->).
  rewrite app_assoc, !last_snoc. reflexivity.
Qed.

(** The fractional digits [#toString] writes never end in a zero. *)
Lemma toString_value_fraction (v : Z) :
  exists i f,
    MidaDecimal.toString_value v = numeral (v <? 0) i f /\
    all_digits i = true /\ all_digits f = true /\ (length f <= 32)%nat /\
    last f <> Some "0"%char /\
    decimal_value (i ++ kept_fraction f) = Z.abs v.
Proof.
  unfold MidaDecimal.toString_value, padStart, slice_to_neg, slice_from_neg,
    MidaDecimal.decimals.
  destruct (Z.ltb_spec v 0) as [Hneg | Hpos].
  - destruct (BigInt_toString_neg v Hneg) as (ds & -> & Hds & Hval & Hne).
    cbn [length]. set (n := length ds).
    assert (Hn : (1 <= n)%nat) by (destruct ds; [contradiction | cbn; lia]).
    destruct (le_lt_dec 32 n) as [Hbig | Hsmall].
    + replace (32 + 1 - S n)%nat with 0%nat by lia. cbn [repeat app length].
      fold n. replace (S n - 32)%nat with (S (n - 32)) by lia.
      cbn [firstn skipn].
      destruct (all_digits_firstn_skipn (n - 32) ds Hds) as [Hi Hd].
      assert (Hlen : length (skipn (n - 32) ds) = 32%nat)
        by (rewrite length_skipn; fold n; lia).
      destruct (toString_body _ _ Hi Hd Hlen) as (Hbody & Hf & Hle & Hk).
      rewrite (contains_digits "-" _ eq_refl Hf).
      cbn [contains existsb]. change (is_char "-" "-") with true. cbn [orb].
      cbn [replace_first]. change (is_char "-" "-") with true. cbv iota. cbn [app].
      exists (firstn (n - 32) ds), (replace_dot_zeros_end (skipn (n - 32) ds)).
      split; [unfold numeral; rewrite <- Hbody; reflexivity|].
      split; [exact Hi|]. split; [exact Hf|]. split; [exact Hle|].
      split; [apply replace_dot_zeros_end_last, Hd|].
      rewrite Hk, firstn_skipn, Hval. lia.
    + replace (32 + 1 - S n)%nat with (S (31 - n)) by lia.
      cbn [repeat app]. cbn [length].
      rewrite length_app, repeat_length. cbn [length]. fold n.
      replace (S (31 - n + S n) - 32)%nat with 1%nat by lia.
      cbn [firstn skipn].
      assert (Hnz : all_zeros ds = false)
        by (apply decimal_value_positive_not_zeros; lia).
      rewrite !take_0, !drop_0.
      replace (repeat "0"%char (31 - n) ++ "-"%char :: ds)
        with ((repeat "0"%char (31 - n) ++ ["-"%char]) ++ ds)
        by (rewrite <- app_assoc; reflexivity).
      rewrite replace_dot_zeros_end_app by exact Hnz.
      destruct (replace_dot_zeros_end_digits ds Hds) as [Hf E].
      pose proof (replace_dot_zeros_end_last ds Hds) as Hlast.
      assert (Hfne : replace_dot_zeros_end ds <> []).
      { intros E0. rewrite (replace_dot_zeros_end_empty ds Hds E0) in Hnz.
        discriminate. }
      set (f := replace_dot_zeros_end ds) in *.
      rewrite <- app_assoc. cbn [app].
      assert (Hc : contains "-" (repeat "0"%char (31 - n) ++ "-"%char :: f) = true).
      { rewrite contains_app. cbn [contains existsb].
        change (is_char "-" "-") with true. rewrite orb_true_l, orb_true_r. reflexivity. }
      rewrite Hc.
      rewrite replace_first_at
        by (apply contains_digits; [reflexivity | apply all_digits_repeat_0]).
      change (contains "-" ["0"%char]) with false. cbv iota.
      change (str "0") with ["0"%char]. change (str ".") with ["."%char].
      set (g := repeat "0"%char (31 - n) ++ ["0"%char] ++ f).
      assert (Hg : all_digits g = true).
      { unfold g. rewrite !all_digits_app, all_digits_repeat_0, Hf. reflexivity. }
      assert (Hgne : g <> []).
      { unfold g. destruct (repeat "0"%char (31 - n)); discriminate. }
      assert (Hfl : (length f <= n)%nat).
      { apply (f_equal (@length ascii)) in E. rewrite length_app in E. fold n in E. lia. }
      assert (Hgl : (length g <= 32)%nat).
      { unfold g. rewrite !length_app, repeat_length. cbn [length]. lia. }
      exists ["0"%char], g.
      split; [|split; [reflexivity | split; [exact Hg | split; [exact Hgl|split]]]].
      * unfold numeral. assert (nonempty g = true) as ->
          by (destruct g; [contradiction | reflexivity]).
        change (["0"%char] ++ ["."%char] ++ g) with (["0"%char; "."%char] ++ g).
        rewrite replace_dot_end_digits by assumption. reflexivity.
      * unfold g. rewrite app_assoc, last_app_nonempty by exact Hfne. exact Hlast.
      * rewrite kept_fraction_short by exact Hgl.
        assert (Eg : g ++ repeat "0"%char (32 - length g)
                     = repeat "0"%char (32 - n) ++ ds).
        { unfold g. rewrite !length_app, repeat_length. cbn [length].
          rewrite E at 1. fold n.
          replace (32 - n)%nat with ((31 - n) + 1)%nat by lia.
          rewrite repeat_app. cbn [repeat]. rewrite <- !app_assoc. cbn [app].
          do 4 f_equal. lia. }
        rewrite Eg. change (["0"%char]) with (repeat "0"%char 1).
        rewrite !decimal_value_pad_left, Hval. lia.
  - destruct (BigInt_toString_nonneg v Hpos) as (ds & -> & Hds & Hval & Hne).
    set (p := repeat "0"%char (32 + 1 - length ds) ++ ds).
    assert (Hp : all_digits p = true).
    { unfold p. rewrite all_digits_app, all_digits_repeat_0, Hds. reflexivity. }
    assert (Hpl : (33 <= length p)%nat).
    { unfold p. rewrite length_app, repeat_length. lia. }
    destruct (all_digits_firstn_skipn (length p - 32) p Hp) as [Hi Hd].
    assert (Hlen : length (skipn (length p - 32) p) = 32%nat)
      by (rewrite length_skipn; lia).
    destruct (toString_body _ _ Hi Hd Hlen) as (Hbody & Hf & Hle & Hk).
    rewrite (contains_digits "-" _ eq_refl Hf).
    rewrite (contains_digits "-" _ eq_refl Hi). cbn [app].
    exists (firstn (length p - 32) p), (replace_dot_zeros_end (skipn (length p - 32) p)).
    split; [unfold numeral; rewrite <- Hbody; reflexivity|].
    split; [exact Hi|]. split; [exact Hf|]. split; [exact Hle|].
    split; [apply replace_dot_zeros_end_last, Hd|].
    rewrite Hk, firstn_skipn. unfold p. rewrite decimal_value_pad_left, Hval. lia.
Qed.

(** A numeral determines its sign and its digits. *)
Lemma numeral_inj (n1 n2 : bool) (i1 f1 i2 f2 : jsstring) :
  all_digits i1 = true -> all_digits f1 = true ->
  all_digits i2 = true -> all_digits f2 = true ->
  numeral n1 i1 f1 = numeral n2 i2 f2 ->
  n1 = n2 /\ i1 = i2 /\ f1 = f2.
Proof.
  intros H1 H2 H3 H4 E.
  pose proof (constructor_parts_numeral n1 i1 f1 H1 H2) as P1.
  pose proof (constructor_parts_numeral n2 i2 f2 H3 H4) as P2.
  rewrite E, P2 in P1. injection P1 as -> -> ->. auto.
Qed.

Lemma toString_value_inj (v1 v2 : Z) :
  MidaDecimal.toString_value v1 = MidaDecimal.toString_value v2 -> v1 = v2.
Proof.
  intros E.
  destruct (toString_value_numeral v1) as (i1 & f1 & E1 & Hi1 & Hf1 & _ & V1).
  destruct (toString_value_numeral v2) as (i2 & f2 & E2 & Hi2 & Hf2 & _ & V2).
  rewrite E1, E2 in E.
  apply numeral_inj in E as (Hs & -> & ->); try assumption.
  rewrite V1 in V2.
  destruct (Z.ltb_spec v1 0), (Z.ltb_spec v2 0); try discriminate; lia.
Qed.

End CanonicalText.

(* ================================================================== *)
(** * What the constructor makes of its input *)
(* ================================================================== *)

Section ConstructorInputs.
Import JS.

Lemma new_of_parts (s s' : jsstring) :
  MidaDecimal.constructor_parts s = MidaDecimal.constructor_parts s' ->
  MidaDecimal.new s = MidaDecimal.new s'.
Proof. intros E. unfold MidaDecimal.new. rewrite E. reflexivity. Qed.

(** The two segments the constructor destructures. *)
Lemma segments_one (w : jsstring) :
  contains "." w = false ->
  nth 0 (split "." w ++ [[]]) [] = w /\ nth 1 (split "." w ++ [[]]) [] = [].
Proof. intros H. rewrite split_no_separator by exact H. auto. Qed.

Lemma segments_two (w d rest : jsstring) :
  contains "." w = false -> contains "." d = false ->
  (rest = [] \/ exists t, rest = "."%char :: t) ->
  nth 0 (split "." (w ++ "."%char :: d ++ rest) ++ [[]]) [] = w /\
  nth 1 (split "." (w ++ "."%char :: d ++ rest) ++ [[]]) [] = d.
Proof.
  intros Hw Hd [-> | [t ->]]; rewrite split_at_first_separator by exact Hw.
  - rewrite app_nil_r, split_no_separator by exact Hd. auto.
  - rewrite split_at_first_separator by exact Hd. auto.
Qed.

Lemma kept_fraction_app (f g : jsstring) :
  (32 <= length f)%nat -> kept_fraction (f ++ g) = kept_fraction f.
Proof.
  intros H. unfold kept_fraction.
  rewrite <- !app_assoc, !firstn_app.
  replace (32 - length f)%nat with 0%nat by lia.
  cbn [firstn]. rewrite !app_nil_r. reflexivity.
Qed.

Lemma excess_digit_app (f g : jsstring) :
  (33 <= length f)%nat -> excess_digit_ge_5 (f ++ g) = excess_digit_ge_5 f.
Proof.
  intros H. unfold excess_digit_ge_5. rewrite nth_error_app1 by lia. reflexivity.
Qed.

Lemma decimal_value_prefix_le (f g : jsstring) :
  all_digits f = true -> all_digits g = true ->
  decimal_value f <= decimal_value (f ++ g).
Proof.
  intros Hf Hg. rewrite decimal_value_app.
  pose proof (decimal_value_bounds f Hf). pose proof (decimal_value_bounds g Hg).
  assert (0 < 10 ^ Z.of_nat (length g)) by (apply Z.pow_pos_nonneg; lia).
  nia.
Qed.

(** ** Hexadecimal text *)

Lemma radix_16_not_char (a c : ascii) :
  is_radix_digit 16 a = false -> is_radix_digit 16 c = true -> is_char a c = false.
Proof.
  unfold is_char. intros Ha Hc. destruct (Ascii.eqb_spec a c); [congruence | reflexivity].
Qed.

Lemma radix_16_not_whitespace (c : ascii) :
  is_radix_digit 16 c = true -> is_whitespace c = false.
Proof.
  destruct c as [[] [] [] [] [] [] [] []]; intros H;
    solve [reflexivity | discriminate H].
Qed.

Lemma radix_16_no_whitespace (s : jsstring) :
  forallb (is_radix_digit 16) s = true -> no_whitespace s = true.
Proof.
  unfold no_whitespace. induction s as [|c s IH]; [reflexivity|].
  cbn [forallb]. intros H. apply andb_true_iff in H as [Hc Hs].
  rewrite (radix_16_not_whitespace c Hc), (IH Hs). reflexivity.
Qed.

Lemma radix_16_contains (a : ascii) (s : jsstring) :
  is_radix_digit 16 a = false -> forallb (is_radix_digit 16) s = true ->
  contains a s = false.
Proof.
  intros Ha. unfold contains. induction s as [|c s IH]; [reflexivity|].
  cbn [forallb existsb]. intros H. apply andb_true_iff in H as [Hc Hs].
  rewrite (radix_16_not_char a c Ha Hc), (IH Hs). reflexivity.
Qed.

Lemma NonDecimalIntegerLiteral_hex (h : jsstring) :
  hex_digits h = true ->
  NonDecimalIntegerLiteral ("0"%char :: "x"%char :: h) = Some (digits_value 16 h).
Proof.
  unfold hex_digits. intros H. apply andb_true_iff in H as [Hne Hh].
  unfold NonDecimalIntegerLiteral.
  change (is_char "x" "x") with true. change (is_char "0" "0") with true.
  cbn [orb andb]. rewrite Hne, Hh. reflexivity.
Qed.

Lemma hex_text_no_whitespace (h : jsstring) :
  forallb (is_radix_digit 16) h = true ->
  no_whitespace ("0"%char :: "x"%char :: h) = true.
Proof.
  intros H. unfold no_whitespace. cbn [forallb].
  change (negb (is_whitespace "0")) with true.
  change (negb (is_whitespace "x")) with true.
  exact (radix_16_no_whitespace h H).
Qed.

Lemma StringToNumber_hex (h : jsstring) :
  hex_digits h = true ->
  StringToNumber ("0"%char :: "x"%char :: h)
  = round_literal false (digits_value 16 h) 0.
Proof.
  intros H. unfold StringToNumber.
  pose proof H as H'. unfold hex_digits in H'. apply andb_true_iff in H' as [_ Hh].
  rewrite trim_no_whitespace by (apply hex_text_no_whitespace, Hh).
  rewrite NonDecimalIntegerLiteral_hex by exact H. reflexivity.
Qed.

Lemma StringToBigInt_hex (h : jsstring) :
  hex_digits h = true ->
  StringToBigInt ("0"%char :: "x"%char :: h) = Some (digits_value 16 h).
Proof.
  intros H. unfold StringToBigInt.
  pose proof H as H'. unfold hex_digits in H'. apply andb_true_iff in H' as [_ Hh].
  rewrite trim_no_whitespace by (apply hex_text_no_whitespace, Hh).
  rewrite NonDecimalIntegerLiteral_hex by exact H. reflexivity.
Qed.

Lemma hex_digits_pad (h : jsstring) (n : nat) :
  hex_digits h = true -> hex_digits (h ++ repeat "0"%char n) = true.
Proof.
  unfold hex_digits. intros H. apply andb_true_iff in H as [Hne Hh].
  rewrite forallb_app, Hh.
  assert (forallb (is_radix_digit 16) (repeat "0"%char n) = true) as ->
    by (induction n; [reflexivity | assumption]).
  destruct h; [discriminate | reflexivity].
Qed.

Lemma digits_value_16_pad (h : jsstring) (n : nat) :
  digits_value 16 (h ++ repeat "0"%char n) = digits_value 16 h * 16 ^ Z.of_nat n.
Proof.
  rewrite digits_value_app, repeat_length.
  assert (digits_value 16 (repeat "0"%char n) = 0) as ->.
  { induction n as [|n IH]; [reflexivity|].
    change (repeat "0"%char (S n)) with (["0"%char] ++ repeat "0"%char n).
    rewrite digits_value_app, IH. reflexivity. }
  lia.
Qed.

End ConstructorInputs.

(* ================================================================== *)
(** * Arithmetic on readable decimals *)
(* ================================================================== *)

Section Arithmetic.
Import JS.

Lemma readableb_true (v : Z) : readableb v = true <-> readable v.
Proof. unfold readableb, readable. apply Z.ltb_lt. Qed.

Lemma readableb_false (v : Z) : readableb v = false <-> ~ readable v.
Proof. unfold readableb, readable. rewrite Z.ltb_ge. lia. Qed.

Lemma readableb_opp (v : Z) : readableb (- v) = readableb v.
Proof. unfold readableb. rewrite Z.abs_opp. reflexivity. Qed.

Lemma reread_readable (v : Z) :
  readable v -> reread v = Normal (MidaDecimal.mk v).
Proof. intros H. unfold reread. rewrite (proj2 (readableb_true v) H). reflexivity. Qed.

Lemma new_toString_value_reread (v : Z) :
  MidaDecimal.new (MidaDecimal.toString_value v) = reread v.
Proof.
  unfold reread. destruct (readableb v) eqn:E.
  - apply new_toString_value, readableb_true, E.
  - apply new_toString_value_unreadable, readableb_false, E.
Qed.

Lemma rounded_quotient_value (n d : Z) :
  d <> 0 -> MidaDecimal.divideRound_value n d = Normal (rounded_quotient n d).
Proof.
  intros Hd. rewrite divideRound_value_nonzero, correction_signed by assumption.
  unfold rounded_quotient.
  destruct (Z.abs d <=? 2 * Z.abs (Z.rem n d)); f_equal; lia.
Qed.

Lemma divideRound_reread (n d : Z) :
  d <> 0 -> MidaDecimal.divideRound n d = reread (rounded_quotient n d).
Proof.
  intros Hd. unfold MidaDecimal.divideRound.
  rewrite rounded_quotient_value by assumption.
  cbn [mbind completion_bind bind]. apply new_toString_value_reread.
Qed.

Lemma rounded_quotient_nearest (n d : Z) :
  d <> 0 -> 2 * Z.abs (n - rounded_quotient n d * d) <= Z.abs d.
Proof.
  intros Hd. destruct (divideRound_value_nearest n d Hd) as (r & E & B).
  rewrite rounded_quotient_value in E by assumption. injection E as <-. exact B.
Qed.

Lemma rounded_quotient_exact (q d : Z) :
  d <> 0 -> rounded_quotient (q * d) d = q.
Proof.
  intros Hd. pose proof (divideRound_value_exact q d Hd) as E.
  rewrite rounded_quotient_value in E by assumption. injection E as E. exact E.
Qed.

Lemma rounded_quotient_opp_l (n d : Z) :
  d <> 0 -> rounded_quotient (- n) d = - rounded_quotient n d.
Proof.
  intros Hd. unfold rounded_quotient.
  rewrite Z.quot_opp_l, Z.rem_opp_l, Z.abs_opp, Z.sgn_opp by assumption.
  destruct (Z.abs d <=? 2 * Z.abs (Z.rem n d)); lia.
Qed.

Lemma rounded_quotient_opp_r (n d : Z) :
  d <> 0 -> rounded_quotient n (- d) = - rounded_quotient n d.
Proof.
  intros Hd. unfold rounded_quotient.
  rewrite Z.quot_opp_r, Z.rem_opp_r, Z.abs_opp, Z.sgn_opp by assumption.
  destruct (Z.abs d <=? 2 * Z.abs (Z.rem n d)); lia.
Qed.

Lemma shift_nonzero : 10 ^ 32 <> 0.
Proof. vm_compute. discriminate. Qed.

Lemma add_reread (a b : MidaDecimal.t) :
  readable (MidaDecimal.value b) ->
  MidaDecimal.add a (MidaDecimal.OfDecimal b)
  = reread (MidaDecimal.value a + MidaDecimal.value b).
Proof.
  intros Hb. unfold MidaDecimal.add. rewrite decimal_OfDecimal by exact Hb.
  apply new_toString_value_reread.
Qed.

Lemma subtract_reread (a b : MidaDecimal.t) :
  readable (MidaDecimal.value b) ->
  MidaDecimal.subtract a (MidaDecimal.OfDecimal b)
  = reread (MidaDecimal.value a - MidaDecimal.value b).
Proof.
  intros Hb. unfold MidaDecimal.subtract. rewrite decimal_OfDecimal by exact Hb.
  apply new_toString_value_reread.
Qed.

Lemma multiply_reread (a b : MidaDecimal.t) :
  readable (MidaDecimal.value b) ->
  MidaDecimal.multiply a (MidaDecimal.OfDecimal b)
  = reread (rounded_quotient (MidaDecimal.value a * MidaDecimal.value b) (10 ^ 32)).
Proof.
  intros Hb. unfold MidaDecimal.multiply. rewrite decimal_OfDecimal by exact Hb.
  cbn [mbind completion_bind bind]. rewrite shift_eq.
  apply divideRound_reread, shift_nonzero.
Qed.

Lemma divide_reread (a b : MidaDecimal.t) :
  readable (MidaDecimal.value b) -> MidaDecimal.value b <> 0 ->
  MidaDecimal.divide a (MidaDecimal.OfDecimal b)
  = reread (rounded_quotient (MidaDecimal.value a * 10 ^ 32) (MidaDecimal.value b)).
Proof.
  intros Hb Hnz. unfold MidaDecimal.divide. rewrite decimal_OfDecimal by exact Hb.
  cbn [mbind completion_bind bind]. rewrite shift_eq.
  apply divideRound_reread, Hnz.
Qed.

Lemma decimal_number_1 :
  MidaDecimal.decimal number_1 = Normal (MidaDecimal.mk (10 ^ 32)).
Proof. vm_compute. reflexivity. Qed.

Lemma bind_reread_opp (v : Z) :
  reread (- v) = (r ← reread v; Normal (MidaDecimal.mk (- MidaDecimal.value r))).
Proof.
  unfold reread. rewrite readableb_opp. destruct (readableb v); reflexivity.
Qed.

End Arithmetic.

(* ================================================================== *)
(** * Further properties: text and construction *)
(* ================================================================== *)

Section FurtherText.
Import JS.

(** X1.  [#toString] writes a canonical numeral for every bigint: a minus
    sign exactly when the value is negative, then digits, then (only when
    there is a fraction) a dot and at most 32 fractional digits, the last
    of which is not a zero; the integer digits followed by the fraction
    padded back to 32 digits spell the magnitude. *)
Theorem toString_writes_canonical_numeral (v : Z) :
  exists i f,
    MidaDecimal.toString_value v = numeral (v <? 0) i f /\
    all_digits i = true /\ all_digits f = true /\ (length f <= 32)%nat /\
    last f <> Some "0"%char /\
    decimal_value (i ++ f ++ repeat "0"%char (32 - length f)) = Z.abs v.
Proof.
  destruct (toString_value_fraction v) as (i & f & E & Hi & Hf & Hl & Hz & Hv).
  exists i, f. rewrite kept_fraction_short in Hv by exact Hl. auto 10.
Qed.

(** X2.  Two decimals with the same [toString] text are the same decimal,
    and so are two decimals with the same inspection text. *)
Theorem toString_is_injective (d1 d2 : MidaDecimal.t) :
  MidaDecimal.toString d1 = MidaDecimal.toString d2 \/
  inspect_custom d1 = inspect_custom d2 ->
  d1 = d2.
Proof.
  intros H.
  assert (E : MidaDecimal.toString d1 = MidaDecimal.toString d2).
  { destruct H as [H | H]; [exact H|].
    unfold inspect_custom in H. apply app_inv_tail in H. exact H. }
  destruct d1 as [v1], d2 as [v2]. f_equal.
  apply toString_value_inj, E.
Qed.

Lemma toString_is_injective_witness :
  (MidaDecimal.toString (MidaDecimal.mk 15) = MidaDecimal.toString (MidaDecimal.mk 15) \/
   inspect_custom (MidaDecimal.mk 15) = inspect_custom (MidaDecimal.mk 15)) /\
  MidaDecimal.mk 15 = MidaDecimal.mk 15.
Proof.
  assert (H : MidaDecimal.toString (MidaDecimal.mk 15) = MidaDecimal.toString (MidaDecimal.mk 15) \/
              inspect_custom (MidaDecimal.mk 15) = inspect_custom (MidaDecimal.mk 15))
    by (left; reflexivity).
  split; [exact H|].
  exact (toString_is_injective (MidaDecimal.mk 15) (MidaDecimal.mk 15) H).
Defined.

(** X3.  The constructor reads the text [#toString] writes for [v] back
    to [v] when the magnitude of [v] is below [(2^1024 - 2^970) * 10^32],
    and throws [Error] on it otherwise. *)
Theorem constructor_rereads_toString (v : Z) :
  MidaDecimal.new (MidaDecimal.toString_value v)
  = if Z.abs v <? double_overflow * 10 ^ 32
    then Normal (MidaDecimal.mk v)
    else Throw Error.
Proof. apply new_toString_value_reread. Qed.

(** X4.  Every negative decimal the constructor builds reads back: the
    constructor accepts its [toString] text and builds the same decimal. *)
Theorem negative_decimal_reads_back (d : MidaDecimal.t) :
  constructed d -> MidaDecimal.value d < 0 ->
  MidaDecimal.new (MidaDecimal.toString d) = Normal d.
Proof.
  intros [s Hs] Hneg. unfold MidaDecimal.toString.
  rewrite new_toString_value by (eapply new_negative_readable; eassumption).
  destruct d; reflexivity.
Qed.

Lemma negative_decimal_reads_back_witness :
  constructed (MidaDecimal.mk (-25 * 10 ^ 31)) /\
  MidaDecimal.value (MidaDecimal.mk (-25 * 10 ^ 31)) < 0 /\
  MidaDecimal.new (MidaDecimal.toString (MidaDecimal.mk (-25 * 10 ^ 31)))
  = Normal (MidaDecimal.mk (-25 * 10 ^ 31)).
Proof.
  assert (H1 : constructed (MidaDecimal.mk (-25 * 10 ^ 31)))
    by (exists (str "-2.5"); vm_compute; reflexivity).
  assert (H2 : MidaDecimal.value (MidaDecimal.mk (-25 * 10 ^ 31)) < 0)
    by (vm_compute; reflexivity).
  split; [exact H1 | split; [exact H2|]].
  exact (negative_decimal_reads_back _ H1 H2).
Defined.

(** X5.  On a decimal numeral the constructor returns a decimal exactly
    when the integer digits and the fractional digits each spell an
    integer below [2^1024 - 2^970]; otherwise it throws [Error]. *)
Theorem new_accepts_numeral_within_bounds (negative : bool) (i f : jsstring) :
  all_digits i = true -> all_digits f = true ->
  if (decimal_value i <? double_overflow) && (decimal_value f <? double_overflow)
  then exists d, MidaDecimal.new (numeral negative i f) = Normal d
  else MidaDecimal.new (numeral negative i f) = Throw Error.
Proof.
  intros Hi Hf.
  destruct (Z.ltb_spec (decimal_value i) double_overflow) as [Bi | Bi].
  - destruct (Z.ltb_spec (decimal_value f) double_overflow) as [Bf | Bf]; cbn [andb].
    + eexists. apply new_numeral; assumption.
    + apply new_numeral_fraction_overflow; assumption.
  - cbn [andb]. apply new_numeral_overflow; assumption.
Qed.

Lemma new_accepts_numeral_within_bounds_witness :
  all_digits (str "12") = true /\ all_digits (str "5") = true /\
  exists d, MidaDecimal.new (numeral false (str "12") (str "5")) = Normal d.
Proof.
  assert (H1 : all_digits (str "12") = true) by reflexivity.
  assert (H2 : all_digits (str "5") = true) by reflexivity.
  split; [exact H1 | split; [exact H2|]].
  exact (new_accepts_numeral_within_bounds false (str "12") (str "5") H1 H2).
Defined.

(** X6.  A numeral with at most 32 fractional digits is read exactly: the
    value is the integer spelt by all its digits, scaled by the power of
    ten that fills the fraction up to 32 digits, with the sign of the
    numeral. *)
Theorem new_is_exact_up_to_32_digits (negative : bool) (i f : jsstring) :
  all_digits i = true -> all_digits f = true ->
  (length f <= 32)%nat ->
  decimal_value i < double_overflow ->
  MidaDecimal.new (numeral negative i f)
  = Normal (MidaDecimal.mk
              ((if negative then -1 else 1)
               * (decimal_value (i ++ f) * 10 ^ Z.of_nat (32 - length f)))).
Proof.
  intros Hi Hf Hl Bi.
  rewrite new_numeral; try assumption; [|apply short_fraction_finite; assumption].
  rewrite excess_digit_short, kept_fraction_short by exact Hl.
  rewrite app_assoc, decimal_value_pad_right.
  do 2 f_equal. destruct negative; lia.
Qed.

Lemma new_is_exact_up_to_32_digits_witness :
  all_digits (str "12") = true /\ all_digits (str "50") = true /\
  (length (str "50") <= 32)%nat /\
  decimal_value (str "12") < double_overflow /\
  MidaDecimal.new (numeral true (str "12") (str "50"))
  = Normal (MidaDecimal.mk
              ((if true then -1 else 1)
               * (decimal_value (str "12" ++ str "50")
                  * 10 ^ Z.of_nat (32 - length (str "50"))))).
Proof.
  assert (H1 : all_digits (str "12") = true) by reflexivity.
  assert (H2 : all_digits (str "50") = true) by reflexivity.
  assert (H3 : (length (str "50") <= 32)%nat) by (cbn; lia).
  assert (H4 : decimal_value (str "12") < double_overflow) by (vm_compute; reflexivity).
  split; [exact H1 | split; [exact H2 | split; [exact H3 | split; [exact H4|]]]].
  exact (new_is_exact_up_to_32_digits true (str "12") (str "50") H1 H2 H3 H4).
Defined.

(** X7.  A non-negative numeral is cut to 32 fractional digits, and 1 is
    added exactly when its 33rd fractional digit is 5 or more. *)
Theorem new_rounds_nonnegative_numeral (i f : jsstring) :
  all_digits i = true -> all_digits f = true ->
  decimal_value i < double_overflow -> decimal_value f < double_overflow ->
  MidaDecimal.new (numeral false i f)
  = Normal (MidaDecimal.mk
              (decimal_value (i ++ kept_fraction f)
               + (if excess_digit_ge_5 f then 1 else 0))).
Proof. intros Hi Hf Bi Bf. apply (new_numeral false); assumption. Qed.

Lemma new_rounds_nonnegative_numeral_witness :
  all_digits (str "1") = true /\
  all_digits (str "000000000000000000000000000000005") = true /\
  decimal_value (str "1") < double_overflow /\
  decimal_value (str "000000000000000000000000000000005") < double_overflow /\
  MidaDecimal.new (numeral false (str "1") (str "000000000000000000000000000000005"))
  = Normal (MidaDecimal.mk
              (decimal_value (str "1" ++ kept_fraction (str "000000000000000000000000000000005"))
               + (if excess_digit_ge_5 (str "000000000000000000000000000000005") then 1 else 0))).
Proof.
  assert (H1 : all_digits (str "1") = true) by reflexivity.
  assert (H2 : all_digits (str "000000000000000000000000000000005") = true) by reflexivity.
  assert (H3 : decimal_value (str "1") < double_overflow) by (vm_compute; reflexivity).
  assert (H4 : decimal_value (str "000000000000000000000000000000005") < double_overflow)
    by (vm_compute; reflexivity).
  split; [exact H1 | split; [exact H2 | split; [exact H3 | split; [exact H4|]]]].
  exact (new_rounds_nonnegative_numeral _ _ H1 H2 H3 H4).
Defined.

(** X8.  Fractional digits after the 33rd play no part: appending digits to
    a fraction of 33 digits or more does not change what the constructor
    returns (as long as [Number] still reads the fraction as finite). *)
Theorem new_ignores_digits_after_the_33rd (negative : bool) (i f g : jsstring) :
  all_digits i = true -> all_digits f = true -> all_digits g = true ->
  (33 <= length f)%nat ->
  decimal_value (f ++ g) < double_overflow ->
  MidaDecimal.new (numeral negative i (f ++ g))
  = MidaDecimal.new (numeral negative i f).
Proof.
  intros Hi Hf Hg Hl B.
  pose proof (decimal_value_prefix_le f g Hf Hg) as Hle.
  assert (Hfg : all_digits (f ++ g) = true)
    by (rewrite all_digits_app, Hf, Hg; reflexivity).
  destruct (Z.lt_ge_cases (decimal_value i) double_overflow) as [Bi | Bi].
  - rewrite !new_numeral by (assumption || lia).
    rewrite kept_fraction_app, excess_digit_app by lia. reflexivity.
  - rewrite !new_numeral_overflow by assumption. reflexivity.
Qed.

Lemma new_ignores_digits_after_the_33rd_witness :
  all_digits (str "1") = true /\
  all_digits (str "000000000000000000000000000000005") = true /\
  all_digits (str "999") = true /\
  (33 <= length (str "000000000000000000000000000000005"))%nat /\
  decimal_value (str "000000000000000000000000000000005" ++ str "999") < double_overflow /\
  MidaDecimal.new
    (numeral true (str "1") (str "000000000000000000000000000000005" ++ str "999"))
  = MidaDecimal.new
      (numeral true (str "1") (str "000000000000000000000000000000005")).
Proof.
  assert (H1 : all_digits (str "1") = true) by reflexivity.
  assert (H2 : all_digits (str "000000000000000000000000000000005") = true) by reflexivity.
  assert (H3 : all_digits (str "999") = true) by reflexivity.
  assert (H4 : (33 <= length (str "000000000000000000000000000000005"))%nat)
    by (cbn; lia).
  assert (H5 : decimal_value (str "000000000000000000000000000000005" ++ str "999")
               < double_overflow) by (vm_compute; reflexivity).
  split; [exact H1 | split; [exact H2 | split; [exact H3 | split; [exact H4 | split; [exact H5|]]]]].
  exact (new_ignores_digits_after_the_33rd true _ _ _ H1 H2 H3 H4 H5).
Defined.

(** X9.  Whatever follows a second dot is ignored: the constructor only
    destructures the first two dot-separated segments of its input. *)
Theorem new_ignores_text_after_second_dot (a b c : jsstring) :
  contains "." a = false -> contains "." b = false ->
  MidaDecimal.new (a ++ "."%char :: b ++ "."%char :: c)
  = MidaDecimal.new (a ++ "."%char :: b).
Proof.
  intros Ha Hb. apply new_of_parts. unfold MidaDecimal.constructor_parts.
  destruct (segments_two a b ("."%char :: c) Ha Hb ltac:(right; eauto)) as [-> ->].
  destruct (segments_two a b [] Ha Hb ltac:(left; reflexivity)) as [E0 E1].
  rewrite app_nil_r in E0, E1. rewrite E0, E1. reflexivity.
Qed.

Lemma new_ignores_text_after_second_dot_witness :
  contains "." (str "1") = false /\ contains "." (str "2") = false /\
  MidaDecimal.new (str "1" ++ "."%char :: str "2" ++ "."%char :: str "3")
  = MidaDecimal.new (str "1" ++ "."%char :: str "2").
Proof.
  assert (H1 : contains "." (str "1") = false) by reflexivity.
  assert (H2 : contains "." (str "2") = false) by reflexivity.
  split; [exact H1 | split; [exact H2|]].
  exact (new_ignores_text_after_second_dot (str "1") (str "2") (str "3") H1 H2).
Defined.

(** X10.  A first minus sign anywhere inside the integer part counts as a
    leading sign: the input [x-y] followed by an optional fraction is read
    as [-xy] followed by that fraction. *)
Theorem new_takes_minus_out_of_integer_part (x y rest : jsstring) :
  contains "-" x = false -> contains "." x = false -> contains "." y = false ->
  (rest = [] \/ exists t, rest = "."%char :: t) ->
  MidaDecimal.new (x ++ "-"%char :: y ++ rest)
  = MidaDecimal.new ("-"%char :: x ++ y ++ rest).
Proof.
  intros Hx Hdx Hdy Hrest. apply new_of_parts.
  assert (Hw : contains "." (x ++ "-"%char :: y) = false).
  { rewrite contains_app, Hdx. cbn [contains existsb orb].
    change (is_char "." "-") with false. exact Hdy. }
  assert (Hw' : contains "." ("-"%char :: x ++ y) = false).
  { cbn [contains existsb]. change (is_char "." "-") with false.
    cbn [orb]. fold (contains "." (x ++ y)). rewrite contains_app, Hdx. exact Hdy. }
  assert (Hseg : forall w, contains "." w = false ->
             nth 0 (split "." (w ++ rest) ++ [[]]) [] = w /\
             nth 1 (split "." (w ++ rest) ++ [[]]) []
             = nth 0 (split "." (skipn 1 rest) ++ [[]]) []).
  { intros w H. destruct Hrest as [-> | [t ->]].
    - rewrite app_nil_r, split_no_separator by exact H. auto.
    - rewrite split_at_first_separator by exact H. cbn [skipn].
      split; [reflexivity|]. cbn [app nth]. reflexivity. }
  unfold MidaDecimal.constructor_parts.
  replace (x ++ "-"%char :: y ++ rest) with ((x ++ "-"%char :: y) ++ rest)
    by (rewrite <- app_assoc; reflexivity).
  replace ("-"%char :: x ++ y ++ rest) with (("-"%char :: x ++ y) ++ rest)
    by (cbn [app]; rewrite <- app_assoc; reflexivity).
  destruct (Hseg _ Hw) as [-> ->]. destruct (Hseg _ Hw') as [-> ->].
  assert (C1 : contains "-" (x ++ "-"%char :: y) = true).
  { rewrite contains_app. cbn [contains existsb].
    change (is_char "-" "-") with true. rewrite orb_true_l, orb_true_r. reflexivity. }
  assert (C2 : contains "-" ("-"%char :: x ++ y) = true) by reflexivity.
  rewrite C1, C2, replace_first_at by exact Hx.
  cbn [replace_first]. change (is_char "-" "-") with true. cbv iota. cbn [app].
  destruct (contains "-" (nth 0 (split "." (skipn 1 rest) ++ [[]]) [])); reflexivity.
Qed.

Lemma new_takes_minus_out_of_integer_part_witness :
  contains "-" (str "1") = false /\ contains "." (str "1") = false /\
  contains "." (str "2") = false /\
  (str ".5" = [] \/ exists t, str ".5" = "."%char :: t) /\
  MidaDecimal.new (str "1" ++ "-"%char :: str "2" ++ str ".5")
  = MidaDecimal.new ("-"%char :: str "1" ++ str "2" ++ str ".5").
Proof.
  assert (H1 : contains "-" (str "1") = false) by reflexivity.
  assert (H2 : contains "." (str "1") = false) by reflexivity.
  assert (H3 : contains "." (str "2") = false) by reflexivity.
  assert (H4 : str ".5" = [] \/ exists t, str ".5" = "."%char :: t)
    by (right; exists (str "5"); reflexivity).
  split; [exact H1 | split; [exact H2 | split; [exact H3 | split; [exact H4|]]]].
  exact (new_takes_minus_out_of_integer_part (str "1") (str "2") (str ".5") H1 H2 H3 H4).
Defined.

(** X11.  A first minus sign in the fractional part makes the value
    negative and is read as the digit 0: [i.x-y] is read as [-i.x0y]. *)
Theorem new_reads_minus_in_fraction_as_zero (i x y : jsstring) :
  contains "." i = false -> contains "-" i = false ->
  contains "." x = false -> contains "-" x = false ->
  contains "." y = false -> contains "-" y = false ->
  MidaDecimal.new (i ++ "."%char :: x ++ "-"%char :: y)
  = MidaDecimal.new ("-"%char :: i ++ "."%char :: x ++ "0"%char :: y).
Proof.
  intros Hdi Hmi Hdx Hmx Hdy Hmy. apply new_of_parts.
  assert (D1 : contains "." (x ++ "-"%char :: y) = false).
  { rewrite contains_app, Hdx. cbn [contains existsb orb].
    change (is_char "." "-") with false. exact Hdy. }
  assert (D2 : contains "." (x ++ "0"%char :: y) = false).
  { rewrite contains_app, Hdx. cbn [contains existsb orb].
    change (is_char "." "0") with false. exact Hdy. }
  assert (D3 : contains "." ("-"%char :: i) = false).
  { cbn [contains existsb]. change (is_char "." "-") with false. exact Hdi. }
  unfold MidaDecimal.constructor_parts.
  destruct (segments_two i (x ++ "-"%char :: y) [] Hdi D1 ltac:(left; reflexivity))
    as [E0 E1].
  rewrite app_nil_r in E0, E1. rewrite E0, E1.
  destruct (segments_two ("-"%char :: i) (x ++ "0"%char :: y) [] D3 D2
              ltac:(left; reflexivity)) as [F0 F1].
  rewrite app_nil_r in F0, F1. cbn [app] in F0, F1. rewrite F0, F1.
  assert (C1 : contains "-" (x ++ "-"%char :: y) = true).
  { rewrite contains_app. cbn [contains existsb].
    change (is_char "-" "-") with true. rewrite orb_true_l, orb_true_r. reflexivity. }
  assert (C2 : contains "-" (x ++ "0"%char :: y) = false).
  { rewrite contains_app, Hmx. cbn [contains existsb orb].
    change (is_char "-" "0") with false. exact Hmy. }
  assert (C3 : contains "-" ("-"%char :: i) = true) by reflexivity.
  rewrite C1, C2, C3, Hmi, replace_first_at by exact Hmx.
  cbn [replace_first]. change (is_char "-" "-") with true. cbv iota.
  reflexivity.
Qed.

Lemma new_reads_minus_in_fraction_as_zero_witness :
  contains "." (str "1") = false /\ contains "-" (str "1") = false /\
  contains "." (str "") = false /\ contains "-" (str "") = false /\
  contains "." (str "5") = false /\ contains "-" (str "5") = false /\
  MidaDecimal.new (str "1" ++ "."%char :: str "" ++ "-"%char :: str "5")
  = MidaDecimal.new ("-"%char :: str "1" ++ "."%char :: str "" ++ "0"%char :: str "5").
Proof.
  assert (H1 : contains "." (str "1") = false) by reflexivity.
  assert (H2 : contains "-" (str "1") = false) by reflexivity.
  assert (H3 : contains "." (str "") = false) by reflexivity.
  assert (H4 : contains "-" (str "") = false) by reflexivity.
  assert (H5 : contains "." (str "5") = false) by reflexivity.
  assert (H6 : contains "-" (str "5") = false) by reflexivity.
  split; [exact H1 | split; [exact H2 | split; [exact H3 |
    split; [exact H4 | split; [exact H5 | split; [exact H6|]]]]]].
  exact (new_reads_minus_in_fraction_as_zero (str "1") (str "") (str "5")
           H1 H2 H3 H4 H5 H6).
Defined.

(** X12.  The constructor accepts hexadecimal text: ["0x"] followed by
    hexadecimal digits that [Number] reads as finite yields the value of
    those digits times [16^32], because the 32 padding zeros are read by
    [BigInt] as hexadecimal digits too. *)
Theorem new_reads_hexadecimal_text (h : jsstring) :
  hex_digits h = true ->
  digits_value 16 h < double_overflow ->
  MidaDecimal.new ("0"%char :: "x"%char :: h)
  = Normal (MidaDecimal.mk (digits_value 16 h * 16 ^ 32)).
Proof.
  intros Hh Bh.
  pose proof Hh as Hh'. unfold hex_digits in Hh'.
  apply andb_true_iff in Hh' as [_ Hd].
  assert (Hparts : MidaDecimal.constructor_parts ("0"%char :: "x"%char :: h)
                   = (false, "0"%char :: "x"%char :: h, [])).
  { unfold MidaDecimal.constructor_parts.
    assert (Hdot : contains "." ("0"%char :: "x"%char :: h) = false).
    { cbn [contains existsb]. change (is_char "." "0") with false.
      change (is_char "." "x") with false. cbn [orb].
      apply radix_16_contains; [reflexivity | exact Hd]. }
    destruct (segments_one _ Hdot) as [-> ->].
    assert (Hminus : contains "-" ("0"%char :: "x"%char :: h) = false).
    { cbn [contains existsb]. change (is_char "-" "0") with false.
      change (is_char "-" "x") with false. cbn [orb].
      apply radix_16_contains; [reflexivity | exact Hd]. }
    rewrite Hminus. reflexivity. }
  unfold MidaDecimal.new. rewrite Hparts.
  unfold Number_. rewrite StringToNumber_hex by exact Hh.
  unfold round_literal, overflows. cbn [Z.leb Z.compare].
  rewrite Z.pow_0_r, Z.mul_1_r.
  destruct (Z.leb_spec double_overflow (digits_value 16 h)) as [|_]; [lia|].
  cbn [Number_isFinite negb orb].
  change (Number_isFinite (StringToNumber [])) with true. cbn [negb].
  unfold BigInt_of_string, slice_to, padEnd, MidaDecimal.decimals.
  cbn [app length Nat.sub]. rewrite firstn_all2 by (rewrite repeat_length; lia).
  change ("0"%char :: "x"%char :: h ++ repeat "0"%char 32)
    with ("0"%char :: "x"%char :: (h ++ repeat "0"%char 32)).
  rewrite StringToBigInt_hex by (apply hex_digits_pad, Hh).
  cbn [mbind completion_bind bind]. rewrite digits_value_16_pad.
  do 2 f_equal. change (Z.of_nat 32) with 32.
  unfold char_at. cbn [nth_error option_map Number_ Number_ge_5 andb BigInt_of_bool].
  rewrite andb_false_r. cbn [BigInt_of_bool]. lia.
Qed.

Lemma new_reads_hexadecimal_text_witness :
  hex_digits (str "1F") = true /\
  digits_value 16 (str "1F") < double_overflow /\
  MidaDecimal.new ("0"%char :: "x"%char :: str "1F")
  = Normal (MidaDecimal.mk (digits_value 16 (str "1F") * 16 ^ 32)).
Proof.
  assert (H1 : hex_digits (str "1F") = true) by reflexivity.
  assert (H2 : digits_value 16 (str "1F") < double_overflow) by (vm_compute; reflexivity).
  split; [exact H1 | split; [exact H2|]].
  exact (new_reads_hexadecimal_text (str "1F") H1 H2).
Defined.

End FurtherText.

(* ================================================================== *)
(** * Further properties: arithmetic and comparisons *)
(* ================================================================== *)

Section FurtherArithmetic.
Import JS.

Lemma decimal_OfDecimal_reread (d : MidaDecimal.t) :
  MidaDecimal.decimal (MidaDecimal.OfDecimal d)
  = if readableb (MidaDecimal.value d) then Normal d else Throw Error.
Proof.
  destruct (readableb (MidaDecimal.value d)) eqn:E.
  - apply decimal_OfDecimal, readableb_true, E.
  - apply decimal_OfDecimal_unreadable, readableb_false, E.
Qed.

Lemma reread_throws (v : Z) (e : error) : reread v = Throw e -> e = Error.
Proof. unfold reread. destruct (readableb v); [discriminate | congruence]. Qed.

Lemma abs_nonnegative (y : MidaDecimal.t) :
  0 <= MidaDecimal.value y -> MidaDecimal.abs y = Normal y.
Proof.
  intros H. unfold MidaDecimal.abs, MidaDecimal.lessThan.
  rewrite decimal_number_0. cbn [mbind completion_bind bind MidaDecimal.value].
  destruct (Z.ltb_spec (MidaDecimal.value y) 0); [lia | reflexivity].
Qed.

Lemma abs_negative (x : MidaDecimal.t) :
  readable (MidaDecimal.value x) -> MidaDecimal.value x < 0 ->
  MidaDecimal.abs x = Normal (MidaDecimal.mk (- MidaDecimal.value x)).
Proof.
  intros Hr H. unfold MidaDecimal.abs, MidaDecimal.lessThan.
  rewrite decimal_number_0. cbn [mbind completion_bind bind MidaDecimal.value].
  destruct (Z.ltb_spec (MidaDecimal.value x) 0); [|lia].
  apply multiply_minus_1, Hr.
Qed.

(** X13.  With a readable operand, [add] returns the exact sum and
    [subtract] the exact difference of the two scaled integers, or throws
    [Error] when that result is not readable; nothing is rounded or
    truncated. *)
Theorem add_and_subtract_are_exact (a b : MidaDecimal.t) :
  readable (MidaDecimal.value b) ->
  MidaDecimal.add a (MidaDecimal.OfDecimal b)
  = reread (MidaDecimal.value a + MidaDecimal.value b) /\
  MidaDecimal.subtract a (MidaDecimal.OfDecimal b)
  = reread (MidaDecimal.value a - MidaDecimal.value b).
Proof. intros Hb. split; [apply add_reread | apply subtract_reread]; exact Hb. Qed.

Lemma add_and_subtract_are_exact_witness :
  readable (MidaDecimal.value (MidaDecimal.mk (2 * 10 ^ 31))) /\
  MidaDecimal.add (MidaDecimal.mk (10 ^ 31)) (MidaDecimal.OfDecimal (MidaDecimal.mk (2 * 10 ^ 31)))
  = reread (MidaDecimal.value (MidaDecimal.mk (10 ^ 31))
            + MidaDecimal.value (MidaDecimal.mk (2 * 10 ^ 31))) /\
  MidaDecimal.subtract (MidaDecimal.mk (10 ^ 31)) (MidaDecimal.OfDecimal (MidaDecimal.mk (2 * 10 ^ 31)))
  = reread (MidaDecimal.value (MidaDecimal.mk (10 ^ 31))
            - MidaDecimal.value (MidaDecimal.mk (2 * 10 ^ 31))).
Proof.
  assert (H : readable (MidaDecimal.value (MidaDecimal.mk (2 * 10 ^ 31))))
    by (unfold readable; vm_compute; reflexivity).
  split; [exact H|].
  exact (add_and_subtract_are_exact (MidaDecimal.mk (10 ^ 31)) (MidaDecimal.mk (2 * 10 ^ 31)) H).
Defined.

(** X14.  On readable decimals [add] and [multiply] are commutative,
    including in whether they throw. *)
Theorem add_and_multiply_commute (a b : MidaDecimal.t) :
  readable (MidaDecimal.value a) -> readable (MidaDecimal.value b) ->
  MidaDecimal.add a (MidaDecimal.OfDecimal b)
  = MidaDecimal.add b (MidaDecimal.OfDecimal a) /\
  MidaDecimal.multiply a (MidaDecimal.OfDecimal b)
  = MidaDecimal.multiply b (MidaDecimal.OfDecimal a).
Proof.
  intros Ha Hb. split.
  - rewrite !add_reread by assumption. f_equal. lia.
  - rewrite !multiply_reread by assumption. do 2 f_equal. lia.
Qed.

Lemma add_and_multiply_commute_witness :
  readable (MidaDecimal.value (MidaDecimal.mk (10 ^ 31))) /\
  readable (MidaDecimal.value (MidaDecimal.mk (-3 * 10 ^ 32))) /\
  MidaDecimal.add (MidaDecimal.mk (10 ^ 31)) (MidaDecimal.OfDecimal (MidaDecimal.mk (-3 * 10 ^ 32)))
  = MidaDecimal.add (MidaDecimal.mk (-3 * 10 ^ 32)) (MidaDecimal.OfDecimal (MidaDecimal.mk (10 ^ 31))) /\
  MidaDecimal.multiply (MidaDecimal.mk (10 ^ 31)) (MidaDecimal.OfDecimal (MidaDecimal.mk (-3 * 10 ^ 32)))
  = MidaDecimal.multiply (MidaDecimal.mk (-3 * 10 ^ 32)) (MidaDecimal.OfDecimal (MidaDecimal.mk (10 ^ 31))).
Proof.
  assert (Ha : readable (MidaDecimal.value (MidaDecimal.mk (10 ^ 31))))
    by (unfold readable; vm_compute; reflexivity).
  assert (Hb : readable (MidaDecimal.value (MidaDecimal.mk (-3 * 10 ^ 32))))
    by (unfold readable; vm_compute; reflexivity).
  split; [exact Ha | split; [exact Hb|]].
  exact (add_and_multiply_commute _ _ Ha Hb).
Defined.

(** X15.  [add] is associative as long as the two partial sums are
    readable: both groupings return the same decimal or both throw. *)
Theorem add_is_associative (a b c : MidaDecimal.t) :
  readable (MidaDecimal.value b) -> readable (MidaDecimal.value c) ->
  readable (MidaDecimal.value a + MidaDecimal.value b) ->
  readable (MidaDecimal.value b + MidaDecimal.value c) ->
  (s ← MidaDecimal.add a (MidaDecimal.OfDecimal b);
   MidaDecimal.add s (MidaDecimal.OfDecimal c))
  = (t ← MidaDecimal.add b (MidaDecimal.OfDecimal c);
     MidaDecimal.add a (MidaDecimal.OfDecimal t)).
Proof.
  intros Hb Hc Hab Hbc.
  rewrite (add_reread a b Hb), (add_reread b c Hc).
  rewrite !reread_readable by assumption. cbn [mbind completion_bind bind].
  rewrite !add_reread by assumption. cbn [MidaDecimal.value]. f_equal. lia.
Qed.

Lemma add_is_associative_witness :
  readable (MidaDecimal.value (MidaDecimal.mk 2)) /\
  readable (MidaDecimal.value (MidaDecimal.mk 3)) /\
  readable (MidaDecimal.value (MidaDecimal.mk 1) + MidaDecimal.value (MidaDecimal.mk 2)) /\
  readable (MidaDecimal.value (MidaDecimal.mk 2) + MidaDecimal.value (MidaDecimal.mk 3)) /\
  (s ← MidaDecimal.add (MidaDecimal.mk 1) (MidaDecimal.OfDecimal (MidaDecimal.mk 2));
   MidaDecimal.add s (MidaDecimal.OfDecimal (MidaDecimal.mk 3)))
  = (t ← MidaDecimal.add (MidaDecimal.mk 2) (MidaDecimal.OfDecimal (MidaDecimal.mk 3));
     MidaDecimal.add (MidaDecimal.mk 1) (MidaDecimal.OfDecimal t)).
Proof.
  assert (H1 : readable (MidaDecimal.value (MidaDecimal.mk 2)))
    by (unfold readable; vm_compute; reflexivity).
  assert (H2 : readable (MidaDecimal.value (MidaDecimal.mk 3)))
    by (unfold readable; vm_compute; reflexivity).
  assert (H3 : readable (MidaDecimal.value (MidaDecimal.mk 1) + MidaDecimal.value (MidaDecimal.mk 2)))
    by (unfold readable; vm_compute; reflexivity).
  assert (H4 : readable (MidaDecimal.value (MidaDecimal.mk 2) + MidaDecimal.value (MidaDecimal.mk 3)))
    by (unfold readable; vm_compute; reflexivity).
  split; [exact H1 | split; [exact H2 | split; [exact H3 | split; [exact H4|]]]].
  exact (add_is_associative (MidaDecimal.mk 1) (MidaDecimal.mk 2) (MidaDecimal.mk 3) H1 H2 H3 H4).
Defined.

(** X16.  With a readable operand, [multiply] returns the product of the
    two scaled integers divided by [10^32] and rounded to a nearest
    integer (at most half a unit away from the exact quotient), or throws
    [Error] when that integer is not readable. *)
Theorem multiply_rounds_to_nearest (a b : MidaDecimal.t) :
  readable (MidaDecimal.value b) ->
  let r := rounded_quotient (MidaDecimal.value a * MidaDecimal.value b) (10 ^ 32) in
  MidaDecimal.multiply a (MidaDecimal.OfDecimal b) = reread r /\
  2 * Z.abs (MidaDecimal.value a * MidaDecimal.value b - r * 10 ^ 32) <= 10 ^ 32.
Proof.
  intros Hb r. split; [apply multiply_reread, Hb|].
  pose proof (rounded_quotient_nearest
                (MidaDecimal.value a * MidaDecimal.value b) (10 ^ 32) shift_nonzero) as B.
  fold r in B. rewrite (Z.abs_eq (10 ^ 32)) in B by (vm_compute; discriminate).
  exact B.
Qed.

Lemma multiply_rounds_to_nearest_witness :
  readable (MidaDecimal.value (MidaDecimal.mk 3)) /\
  let r := rounded_quotient (MidaDecimal.value (MidaDecimal.mk (5 * 10 ^ 31))
                             * MidaDecimal.value (MidaDecimal.mk 3)) (10 ^ 32) in
  MidaDecimal.multiply (MidaDecimal.mk (5 * 10 ^ 31)) (MidaDecimal.OfDecimal (MidaDecimal.mk 3))
  = reread r /\
  2 * Z.abs (MidaDecimal.value (MidaDecimal.mk (5 * 10 ^ 31))
             * MidaDecimal.value (MidaDecimal.mk 3) - r * 10 ^ 32) <= 10 ^ 32.
Proof.
  assert (H : readable (MidaDecimal.value (MidaDecimal.mk 3)))
    by (unfold readable; vm_compute; reflexivity).
  split; [exact H|].
  exact (multiply_rounds_to_nearest (MidaDecimal.mk (5 * 10 ^ 31)) (MidaDecimal.mk 3) H).
Defined.

(** X17.  With a readable, non-zero operand, [divide] returns the dividend
    scaled by [10^32], divided by the operand and rounded to a nearest
    integer (at most half a divisor away from the exact quotient), or
    throws [Error] when that integer is not readable. *)
Theorem divide_rounds_to_nearest (a b : MidaDecimal.t) :
  readable (MidaDecimal.value b) -> MidaDecimal.value b <> 0 ->
  let r := rounded_quotient (MidaDecimal.value a * 10 ^ 32) (MidaDecimal.value b) in
  MidaDecimal.divide a (MidaDecimal.OfDecimal b) = reread r /\
  2 * Z.abs (MidaDecimal.value a * 10 ^ 32 - r * MidaDecimal.value b)
  <= Z.abs (MidaDecimal.value b).
Proof.
  intros Hb Hnz r. split; [apply divide_reread; assumption|].
  apply rounded_quotient_nearest, Hnz.
Qed.

Lemma divide_rounds_to_nearest_witness :
  readable (MidaDecimal.value (MidaDecimal.mk (-3 * 10 ^ 32))) /\
  MidaDecimal.value (MidaDecimal.mk (-3 * 10 ^ 32)) <> 0 /\
  let r := rounded_quotient (MidaDecimal.value (MidaDecimal.mk (2 * 10 ^ 32)) * 10 ^ 32)
                            (MidaDecimal.value (MidaDecimal.mk (-3 * 10 ^ 32))) in
  MidaDecimal.divide (MidaDecimal.mk (2 * 10 ^ 32))
                     (MidaDecimal.OfDecimal (MidaDecimal.mk (-3 * 10 ^ 32))) = reread r /\
  2 * Z.abs (MidaDecimal.value (MidaDecimal.mk (2 * 10 ^ 32)) * 10 ^ 32
             - r * MidaDecimal.value (MidaDecimal.mk (-3 * 10 ^ 32)))
  <= Z.abs (MidaDecimal.value (MidaDecimal.mk (-3 * 10 ^ 32))).
Proof.
  assert (H1 : readable (MidaDecimal.value (MidaDecimal.mk (-3 * 10 ^ 32))))
    by (unfold readable; vm_compute; reflexivity).
  assert (H2 : MidaDecimal.value (MidaDecimal.mk (-3 * 10 ^ 32)) <> 0)
    by (vm_compute; discriminate).
  split; [exact H1 | split; [exact H2|]].
  exact (divide_rounds_to_nearest (MidaDecimal.mk (2 * 10 ^ 32))
           (MidaDecimal.mk (-3 * 10 ^ 32)) H1 H2).
Defined.

(** X18.  On a readable decimal, multiplying or dividing by the number 1
    and adding or subtracting the number 0 return the decimal unchanged. *)
Theorem neutral_operands (a : MidaDecimal.t) :
  readable (MidaDecimal.value a) ->
  MidaDecimal.multiply a number_1 = Normal a /\
  MidaDecimal.divide a number_1 = Normal a /\
  MidaDecimal.add a MidaDecimal.number_0 = Normal a /\
  MidaDecimal.subtract a MidaDecimal.number_0 = Normal a.
Proof.
  intros Ha. destruct a as [v]. cbn [MidaDecimal.value] in Ha.
  unfold MidaDecimal.multiply, MidaDecimal.divide, MidaDecimal.add, MidaDecimal.subtract.
  rewrite decimal_number_1, decimal_number_0.
  cbn [mbind completion_bind bind MidaDecimal.value]. rewrite shift_eq.
  rewrite !divideRound_reread by exact shift_nonzero.
  rewrite rounded_quotient_exact by exact shift_nonzero.
  rewrite Z.add_0_r, Z.sub_0_r.
  change (MidaDecimal.decimal (MidaDecimal.OfString (MidaDecimal.toString_value v)))
    with (MidaDecimal.new (MidaDecimal.toString_value v)).
  rewrite new_toString_value_reread, reread_readable by exact Ha. auto.
Qed.

Lemma neutral_operands_witness :
  readable (MidaDecimal.value (MidaDecimal.mk (-25 * 10 ^ 31))) /\
  MidaDecimal.multiply (MidaDecimal.mk (-25 * 10 ^ 31)) number_1
  = Normal (MidaDecimal.mk (-25 * 10 ^ 31)) /\
  MidaDecimal.divide (MidaDecimal.mk (-25 * 10 ^ 31)) number_1
  = Normal (MidaDecimal.mk (-25 * 10 ^ 31)) /\
  MidaDecimal.add (MidaDecimal.mk (-25 * 10 ^ 31)) MidaDecimal.number_0
  = Normal (MidaDecimal.mk (-25 * 10 ^ 31)) /\
  MidaDecimal.subtract (MidaDecimal.mk (-25 * 10 ^ 31)) MidaDecimal.number_0
  = Normal (MidaDecimal.mk (-25 * 10 ^ 31)).
Proof.
  assert (H : readable (MidaDecimal.value (MidaDecimal.mk (-25 * 10 ^ 31))))
    by (unfold readable; vm_compute; reflexivity).
  split; [exact H|].
  exact (neutral_operands (MidaDecimal.mk (-25 * 10 ^ 31)) H).
Defined.

(** X19.  Dividing [a] by a readable non-zero decimal [b] and multiplying
    the quotient by [b] again gives a result [r] close to [a]:
    [2 * |r - a| * 10^32 <= |b| + 10^32], that is, [r] is within
    [(1 + |b| / 10^32) / 2] units of [a] (or the second step throws
    [Error] when [r] is not readable). *)
Theorem divide_then_multiply_is_close (a b : MidaDecimal.t) :
  readable (MidaDecimal.value b) -> MidaDecimal.value b <> 0 ->
  readable (rounded_quotient (MidaDecimal.value a * 10 ^ 32) (MidaDecimal.value b)) ->
  exists r,
    (q ← MidaDecimal.divide a (MidaDecimal.OfDecimal b);
     MidaDecimal.multiply q (MidaDecimal.OfDecimal b)) = reread r /\
    2 * Z.abs (r * 10 ^ 32 - MidaDecimal.value a * 10 ^ 32)
    <= Z.abs (MidaDecimal.value b) + 10 ^ 32.
Proof.
  intros Hb Hnz Hq.
  set (q := rounded_quotient (MidaDecimal.value a * 10 ^ 32) (MidaDecimal.value b)) in *.
  exists (rounded_quotient (q * MidaDecimal.value b) (10 ^ 32)).
  rewrite divide_reread by assumption. fold q.
  rewrite reread_readable by exact Hq. cbn [mbind completion_bind bind].
  rewrite multiply_reread by exact Hb. cbn [MidaDecimal.value].
  split; [reflexivity|].
  pose proof (rounded_quotient_nearest (MidaDecimal.value a * 10 ^ 32)
                (MidaDecimal.value b) Hnz) as B1. fold q in B1.
  pose proof (rounded_quotient_nearest (q * MidaDecimal.value b) (10 ^ 32)
                shift_nonzero) as B2.
  rewrite (Z.abs_eq (10 ^ 32)) in B2 by (vm_compute; discriminate).
  set (r := rounded_quotient (q * MidaDecimal.value b) (10 ^ 32)) in *.
  generalize dependent (r * 10 ^ 32). generalize dependent (q * MidaDecimal.value b).
  generalize dependent (MidaDecimal.value a * 10 ^ 32).
  generalize (10 ^ 32). intros. lia.
Qed.

Lemma divide_then_multiply_is_close_witness :
  readable (MidaDecimal.value (MidaDecimal.mk (3 * 10 ^ 32))) /\
  MidaDecimal.value (MidaDecimal.mk (3 * 10 ^ 32)) <> 0 /\
  readable (rounded_quotient (MidaDecimal.value (MidaDecimal.mk (10 ^ 32)) * 10 ^ 32)
                             (MidaDecimal.value (MidaDecimal.mk (3 * 10 ^ 32)))) /\
  exists r,
    (q ← MidaDecimal.divide (MidaDecimal.mk (10 ^ 32))
                            (MidaDecimal.OfDecimal (MidaDecimal.mk (3 * 10 ^ 32)));
     MidaDecimal.multiply q (MidaDecimal.OfDecimal (MidaDecimal.mk (3 * 10 ^ 32))))
    = reread r /\
    2 * Z.abs (r * 10 ^ 32 - MidaDecimal.value (MidaDecimal.mk (10 ^ 32)) * 10 ^ 32)
    <= Z.abs (MidaDecimal.value (MidaDecimal.mk (3 * 10 ^ 32))) + 10 ^ 32.
Proof.
  assert (H1 : readable (MidaDecimal.value (MidaDecimal.mk (3 * 10 ^ 32))))
    by (unfold readable; vm_compute; reflexivity).
  assert (H2 : MidaDecimal.value (MidaDecimal.mk (3 * 10 ^ 32)) <> 0)
    by (vm_compute; discriminate).
  assert (H3 : readable (rounded_quotient
                           (MidaDecimal.value (MidaDecimal.mk (10 ^ 32)) * 10 ^ 32)
                           (MidaDecimal.value (MidaDecimal.mk (3 * 10 ^ 32)))))
    by (unfold readable; vm_compute; reflexivity).
  split; [exact H1 | split; [exact H2 | split; [exact H3|]]].
  exact (divide_then_multiply_is_close (MidaDecimal.mk (10 ^ 32))
           (MidaDecimal.mk (3 * 10 ^ 32)) H1 H2 H3).
Defined.

(** X20.  The rounding is symmetric in the sign: negating the receiver
    negates the product and, for a non-zero operand, the quotient. *)
Theorem negation_passes_through_multiply_and_divide (a b : MidaDecimal.t) :
  readable (MidaDecimal.value b) ->
  MidaDecimal.multiply (MidaDecimal.mk (- MidaDecimal.value a)) (MidaDecimal.OfDecimal b)
  = (p ← MidaDecimal.multiply a (MidaDecimal.OfDecimal b);
     Normal (MidaDecimal.mk (- MidaDecimal.value p))) /\
  (MidaDecimal.value b <> 0 ->
   MidaDecimal.divide (MidaDecimal.mk (- MidaDecimal.value a)) (MidaDecimal.OfDecimal b)
   = (q ← MidaDecimal.divide a (MidaDecimal.OfDecimal b);
      Normal (MidaDecimal.mk (- MidaDecimal.value q)))).
Proof.
  intros Hb. split; [|intros Hnz].
  - rewrite !multiply_reread by exact Hb. cbn [MidaDecimal.value].
    rewrite Z.mul_opp_l, rounded_quotient_opp_l by exact shift_nonzero.
    apply bind_reread_opp.
  - rewrite !divide_reread by assumption. cbn [MidaDecimal.value].
    rewrite Z.mul_opp_l, rounded_quotient_opp_l by exact Hnz.
    apply bind_reread_opp.
Qed.

Lemma negation_passes_through_multiply_and_divide_witness :
  readable (MidaDecimal.value (MidaDecimal.mk 3)) /\
  MidaDecimal.multiply (MidaDecimal.mk (- MidaDecimal.value (MidaDecimal.mk (5 * 10 ^ 31))))
                       (MidaDecimal.OfDecimal (MidaDecimal.mk 3))
  = (p ← MidaDecimal.multiply (MidaDecimal.mk (5 * 10 ^ 31))
                              (MidaDecimal.OfDecimal (MidaDecimal.mk 3));
     Normal (MidaDecimal.mk (- MidaDecimal.value p))).
Proof.
  assert (H : readable (MidaDecimal.value (MidaDecimal.mk 3)))
    by (unfold readable; vm_compute; reflexivity).
  split; [exact H|].
  exact (proj1 (negation_passes_through_multiply_and_divide
                  (MidaDecimal.mk (5 * 10 ^ 31)) (MidaDecimal.mk 3) H)).
Defined.

(** X21.  For every decimal built by the constructor [abs] returns a
    decimal whose value is the absolute value, and [abs] of that result
    returns it unchanged. *)
Theorem abs_is_absolute_value_and_idempotent (x : MidaDecimal.t) :
  constructed x ->
  exists y, MidaDecimal.abs x = Normal y /\
            MidaDecimal.value y = Z.abs (MidaDecimal.value x) /\
            MidaDecimal.abs y = Normal y.
Proof.
  intros [s Hs]. destruct (Z.lt_ge_cases (MidaDecimal.value x) 0) as [Hneg | Hpos].
  - exists (MidaDecimal.mk (- MidaDecimal.value x)).
    split; [|split].
    + apply abs_negative; [|exact Hneg]. eapply new_negative_readable; eassumption.
    + cbn [MidaDecimal.value]. lia.
    + apply abs_nonnegative. cbn [MidaDecimal.value]. lia.
  - exists x. split; [|split].
    + apply abs_nonnegative, Hpos.
    + lia.
    + apply abs_nonnegative, Hpos.
Qed.

Lemma abs_is_absolute_value_and_idempotent_witness :
  constructed (MidaDecimal.mk (-25 * 10 ^ 31)) /\
  exists y, MidaDecimal.abs (MidaDecimal.mk (-25 * 10 ^ 31)) = Normal y /\
            MidaDecimal.value y = Z.abs (MidaDecimal.value (MidaDecimal.mk (-25 * 10 ^ 31))) /\
            MidaDecimal.abs y = Normal y.
Proof.
  assert (H : constructed (MidaDecimal.mk (-25 * 10 ^ 31)))
    by (exists (str "-2.5"); vm_compute; reflexivity).
  split; [exact H|].
  exact (abs_is_absolute_value_and_idempotent _ H).
Defined.

(** X22.  On readable decimals the comparisons are dual to each other:
    [a.greaterThan(b)] is [b.lessThan(a)], [equals] is symmetric,
    [greaterThanOrEqual] is the negation of [lessThan] and
    [lessThanOrEqual] the negation of [greaterThan]. *)
Theorem comparisons_are_dual (a b : MidaDecimal.t) :
  readable (MidaDecimal.value a) -> readable (MidaDecimal.value b) ->
  MidaDecimal.greaterThan a (MidaDecimal.OfDecimal b)
  = MidaDecimal.lessThan b (MidaDecimal.OfDecimal a) /\
  MidaDecimal.equals a (MidaDecimal.OfDecimal b)
  = MidaDecimal.equals b (MidaDecimal.OfDecimal a) /\
  MidaDecimal.greaterThanOrEqual a (MidaDecimal.OfDecimal b)
  = (l ← MidaDecimal.lessThan a (MidaDecimal.OfDecimal b); Normal (negb l)) /\
  MidaDecimal.lessThanOrEqual a (MidaDecimal.OfDecimal b)
  = (g ← MidaDecimal.greaterThan a (MidaDecimal.OfDecimal b); Normal (negb g)).
Proof.
  intros Ha Hb.
  unfold MidaDecimal.greaterThanOrEqual, MidaDecimal.lessThanOrEqual.
  rewrite !greaterThan_readable, !lessThan_readable, !equals_readable by assumption.
  cbn [mbind completion_bind bind]. rewrite Z.gtb_ltb, Z.eqb_sym.
  repeat split; try reflexivity.
  - destruct (Z.ltb_spec (MidaDecimal.value b) (MidaDecimal.value a)),
             (Z.eqb_spec (MidaDecimal.value b) (MidaDecimal.value a)),
             (Z.ltb_spec (MidaDecimal.value a) (MidaDecimal.value b));
      try lia; reflexivity.
  - destruct (Z.ltb_spec (MidaDecimal.value b) (MidaDecimal.value a)),
             (Z.eqb_spec (MidaDecimal.value b) (MidaDecimal.value a)),
             (Z.ltb_spec (MidaDecimal.value a) (MidaDecimal.value b));
      try lia; reflexivity.
Qed.

Lemma comparisons_are_dual_witness :
  readable (MidaDecimal.value (MidaDecimal.mk 1)) /\
  readable (MidaDecimal.value (MidaDecimal.mk 3)) /\
  MidaDecimal.greaterThan (MidaDecimal.mk 1) (MidaDecimal.OfDecimal (MidaDecimal.mk 3))
  = MidaDecimal.lessThan (MidaDecimal.mk 3) (MidaDecimal.OfDecimal (MidaDecimal.mk 1)).
Proof.
  assert (Ha : readable (MidaDecimal.value (MidaDecimal.mk 1)))
    by (unfold readable; vm_compute; reflexivity).
  assert (Hb : readable (MidaDecimal.value (MidaDecimal.mk 3)))
    by (unfold readable; vm_compute; reflexivity).
  split; [exact Ha | split; [exact Hb|]].
  exact (proj1 (comparisons_are_dual (MidaDecimal.mk 1) (MidaDecimal.mk 3) Ha Hb)).
Defined.

(** X23.  Comparing two decimals agrees with comparing their difference
    with the number 0, when the operand and the difference are readable. *)
Theorem comparisons_agree_with_subtract (a b : MidaDecimal.t) :
  readable (MidaDecimal.value b) ->
  readable (MidaDecimal.value a - MidaDecimal.value b) ->
  (d ← MidaDecimal.subtract a (MidaDecimal.OfDecimal b);
   MidaDecimal.lessThan d MidaDecimal.number_0)
  = MidaDecimal.lessThan a (MidaDecimal.OfDecimal b) /\
  (d ← MidaDecimal.subtract a (MidaDecimal.OfDecimal b);
   MidaDecimal.equals d MidaDecimal.number_0)
  = MidaDecimal.equals a (MidaDecimal.OfDecimal b) /\
  (d ← MidaDecimal.subtract a (MidaDecimal.OfDecimal b);
   MidaDecimal.greaterThan d MidaDecimal.number_0)
  = MidaDecimal.greaterThan a (MidaDecimal.OfDecimal b).
Proof.
  intros Hb Hd.
  rewrite subtract_readable by assumption. cbn [mbind completion_bind bind].
  unfold MidaDecimal.lessThan, MidaDecimal.equals, MidaDecimal.greaterThan.
  rewrite decimal_number_0, decimal_OfDecimal by exact Hb.
  cbn [mbind completion_bind bind MidaDecimal.value]. rewrite !Z.gtb_ltb.
  repeat split; f_equal.
  - destruct (Z.ltb_spec (MidaDecimal.value a - MidaDecimal.value b) 0),
             (Z.ltb_spec (MidaDecimal.value a) (MidaDecimal.value b)); lia || reflexivity.
  - destruct (Z.eqb_spec (MidaDecimal.value a - MidaDecimal.value b) 0),
             (Z.eqb_spec (MidaDecimal.value a) (MidaDecimal.value b)); lia || reflexivity.
  - destruct (Z.ltb_spec 0 (MidaDecimal.value a - MidaDecimal.value b)),
             (Z.ltb_spec (MidaDecimal.value b) (MidaDecimal.value a)); lia || reflexivity.
Qed.

Lemma comparisons_agree_with_subtract_witness :
  readable (MidaDecimal.value (MidaDecimal.mk 3)) /\
  readable (MidaDecimal.value (MidaDecimal.mk 1) - MidaDecimal.value (MidaDecimal.mk 3)) /\
  (d ← MidaDecimal.subtract (MidaDecimal.mk 1) (MidaDecimal.OfDecimal (MidaDecimal.mk 3));
   MidaDecimal.lessThan d MidaDecimal.number_0)
  = MidaDecimal.lessThan (MidaDecimal.mk 1) (MidaDecimal.OfDecimal (MidaDecimal.mk 3)).
Proof.
  assert (Hb : readable (MidaDecimal.value (MidaDecimal.mk 3)))
    by (unfold readable; vm_compute; reflexivity).
  assert (Hd : readable (MidaDecimal.value (MidaDecimal.mk 1) - MidaDecimal.value (MidaDecimal.mk 3)))
    by (unfold readable; vm_compute; reflexivity).
  split; [exact Hb | split; [exact Hd|]].
  exact (proj1 (comparisons_agree_with_subtract (MidaDecimal.mk 1) (MidaDecimal.mk 3) Hb Hd)).
Defined.

(** X24.  Arithmetic and comparisons between decimals never throw a
    [SyntaxError]: [add], [subtract], [multiply] and the comparisons can
    only throw [Error], and [divide] only [Error] or, exactly for a zero
    operand, [RangeError]. *)
Theorem operations_on_decimals_throw_only_Error (a b : MidaDecimal.t) (e : error) :
  (MidaDecimal.add a (MidaDecimal.OfDecimal b) = Throw e -> e = Error) /\
  (MidaDecimal.subtract a (MidaDecimal.OfDecimal b) = Throw e -> e = Error) /\
  (MidaDecimal.multiply a (MidaDecimal.OfDecimal b) = Throw e -> e = Error) /\
  (MidaDecimal.divide a (MidaDecimal.OfDecimal b) = Throw e ->
   e = Error \/ (e = RangeError /\ MidaDecimal.value b = 0)) /\
  (MidaDecimal.equals a (MidaDecimal.OfDecimal b) = Throw e -> e = Error) /\
  (MidaDecimal.lessThan a (MidaDecimal.OfDecimal b) = Throw e -> e = Error) /\
  (MidaDecimal.greaterThan a (MidaDecimal.OfDecimal b) = Throw e -> e = Error).
Proof.
  unfold MidaDecimal.add, MidaDecimal.subtract, MidaDecimal.multiply,
    MidaDecimal.divide, MidaDecimal.equals, MidaDecimal.lessThan,
    MidaDecimal.greaterThan.
  rewrite decimal_OfDecimal_reread.
  destruct (readableb (MidaDecimal.value b)) eqn:Hb;
    cbn [mbind completion_bind bind].
  - change (MidaDecimal.decimal (MidaDecimal.OfString ?s)) with (MidaDecimal.new s).
    rewrite !new_toString_value_reread, shift_eq.
    rewrite (divideRound_reread _ _ shift_nonzero).
    repeat split; try (apply reread_throws); try discriminate.
    destruct (Z.eq_dec (MidaDecimal.value b) 0) as [E0 | Hnz].
    + rewrite E0. intros [= <-]. right. auto.
    + rewrite divideRound_reread by exact Hnz. intros H. left.
      eapply reread_throws, H.
  - repeat split; intros [= <-]; auto.
Qed.

End FurtherArithmetic.
